(** * ActualizaData: the daily update-merge pipeline of [main.py]

    A shallow embedding of the pipeline that appends one daily row of market
    observations to a persisted table:

      - the reconciliation step ([paso_final_actualizar] after the vertical
        concatenation) as pure functions on tables;
      - the fetch functions ([retorna_data_bitcoin],
        [retorna_data_instrumentos], [obtener_data_hoy]), the stages
        [concatenar] and [actualizar], the store ([cargar_data_existente],
        [persistir]) and the retry loop ([pipeline_principal]) in a small
        state-and-exception monad over the disk and a trace of the calls
        made to the outside world.  The logger is a sink and is left out;
      - the cleanup of old logs ([limpia_logs_viejos]) as a function of the
        listing of the [logs] folder, and [__main__].

    Modelling conventions.
      - A [date] value is its proleptic Gregorian ordinal (Python's
        [date.toordinal()]), an integer; a null cell is [None].
      - Numeric cells are never computed with, only moved around, so their
        type is a parameter [V] of the development.
      - A data frame with the nine columns of [db.parquet] is the list of its
        rows, in row order.
      - [DataFrame.sort('date')] is a stable ascending sort with nulls first
        (the result of a stable sort is unique, so insertion sort stands for
        it); [unique(subset=['date'], keep='last')] keeps, in order, every
        row that no later row shares its date with;
        [fill_null(strategy='forward')] fills every column downwards,
        the date column included. *)

From Stdlib Require Import ZArith List Bool Lia Ascii String Sorted Permutation.
Import ListNotations.
Open Scope Z_scope.

Set Implicit Arguments.

(** ** Generic helpers on options and lists *)

Section Helpers.
Context {A : Type}.

(** [coalesce a b] is [a] unless [a] is null, in which case it is [b]. *)
Definition coalesce (a b : option A) : option A :=
  match a with
  | Some _ => a
  | None => b
  end.

(** The list holding only the last element of [l] (empty when [l] is). *)
Fixpoint last_only (l : list A) : list A :=
  match l with
  | [] => []
  | x :: l' => match l' with
               | [] => [x]
               | _ :: _ => last_only l'
               end
  end.

(** Forward fill of one column, [seen] being the most recent non-null value
    met so far. *)
Fixpoint ffill (seen : option A) (col : list (option A)) : list (option A) :=
  match col with
  | [] => []
  | x :: col' => coalesce x seen :: ffill (coalesce x seen) col'
  end.

(** The most recent non-null value of a column read top to bottom. *)
Definition last_seen (col : list (option A)) : option A :=
  fold_left (fun seen x => coalesce x seen) col None.
End Helpers.

(** ** Dates *)

(** [date.weekday()]: Monday is 0 and Sunday is 6. *)
Definition weekday (d : Z) : Z := (d + 6) mod 7.

(** Ascending order of a nullable date column, nulls first. *)
Definition date_leb (a b : option Z) : bool :=
  match a, b with
  | None, _ => true
  | Some _, None => false
  | Some x, Some y => x <=? y
  end.

Definition date_ltb (a b : option Z) : bool := negb (date_leb b a).

(** Equality of two cells of the date column; two nulls are equal, as
    [unique] has it. *)
Definition date_eqb (a b : option Z) : bool :=
  match a, b with
  | None, None => true
  | Some x, Some y => x =? y
  | _, _ => false
  end.

Definition date_le (a b : option Z) : Prop := date_leb a b = true.
Definition date_lt (a b : option Z) : Prop := date_ltb a b = true.

(** Ascending, and strictly ascending, lists of dates. *)
Definition nondecreasing (ds : list (option Z)) : Prop :=
  StronglySorted date_le ds.
Definition increasing (ds : list (option Z)) : Prop :=
  StronglySorted date_lt ds.

(** ** Rows and tables *)

Section Frame.
Context {V : Type}.

(** One row of the table: the columns of [db.parquet]. *)
Record Row : Type := mkRow {
  date : option Z;
  price : option V;
  total_volume : option V;
  market_cap : option V;
  price_gold : option V;
  stock_index_dowjones : option V;
  stock_index_sp500 : option V;
  rate_US10Y : option V;
  stock_index_ni225 : option V
}.

Definition Table : Type := list Row.

(** The value columns, by name. *)
Inductive Col : Type :=
| c_price | c_total_volume | c_market_cap
| c_price_gold | c_stock_index_dowjones | c_stock_index_sp500
| c_rate_US10Y | c_stock_index_ni225.

Definition cell (c : Col) (r : Row) : option V :=
  match c with
  | c_price => price r
  | c_total_volume => total_volume r
  | c_market_cap => market_cap r
  | c_price_gold => price_gold r
  | c_stock_index_dowjones => stock_index_dowjones r
  | c_stock_index_sp500 => stock_index_sp500 r
  | c_rate_US10Y => rate_US10Y r
  | c_stock_index_ni225 => stock_index_ni225 r
  end.

Definition column (c : Col) (t : Table) : list (option V) := map (cell c) t.

Definition dates (t : Table) : list (option Z) := map date t.

Definition has_date (d : option Z) (r : Row) : bool := date_eqb (date r) d.

(** *** [df.sort('date')] *)

Fixpoint insert_by_date (r : Row) (t : Table) : Table :=
  match t with
  | [] => [r]
  | s :: t' =>
      if date_leb (date r) (date s) then r :: t
      else s :: insert_by_date r t'
  end.

Fixpoint sort_by_date (t : Table) : Table :=
  match t with
  | [] => []
  | r :: t' => insert_by_date r (sort_by_date t')
  end.

(** *** [df.unique(subset=['date'], keep='last')] *)

Fixpoint unique_keep_last (t : Table) : Table :=
  match t with
  | [] => []
  | r :: t' =>
      if existsb (has_date (date r)) t' then unique_keep_last t'
      else r :: unique_keep_last t'
  end.

(** *** [df.fill_null(strategy='forward')] *)

(** The row with a null in every column: nothing seen yet. *)
Definition null_row : Row :=
  mkRow None None None None None None None None None.

(** [fill_row prev r]: every null of [r] takes the value [prev] has in that
    column. *)
Definition fill_row (prev r : Row) : Row :=
  mkRow (coalesce (date r) (date prev))
        (coalesce (price r) (price prev))
        (coalesce (total_volume r) (total_volume prev))
        (coalesce (market_cap r) (market_cap prev))
        (coalesce (price_gold r) (price_gold prev))
        (coalesce (stock_index_dowjones r) (stock_index_dowjones prev))
        (coalesce (stock_index_sp500 r) (stock_index_sp500 prev))
        (coalesce (rate_US10Y r) (rate_US10Y prev))
        (coalesce (stock_index_ni225 r) (stock_index_ni225 prev)).

(** Rows are filled top to bottom; the filled row above carries, column by
    column, the most recent non-null value. *)
Fixpoint fill_from (prev : Row) (t : Table) : Table :=
  match t with
  | [] => []
  | r :: t' => fill_row prev r :: fill_from (fill_row prev r) t'
  end.

Definition fill_null_forward (t : Table) : Table := fill_from null_row t.

(** *** The reconciliation step *)

(** The table after [.sort('date').unique(subset=clave, keep='last')]: what
    forward fill receives. *)
Definition sorted_unique (df : Table) : Table :=
  unique_keep_last (sort_by_date df).

(** [paso_final_actualizar]: sort by date, keep the last row of each date,
    fill forward. *)
Definition paso_final_actualizar (df : Table) : Table :=
  fill_null_forward (sorted_unique df).

(** [pl.concat([df_existente, df_hoy], how='vertical')] on two frames of the
    same schema: the rows of the second below the rows of the first. *)
Definition concat_vertical (df_existente df_hoy : Table) : Table :=
  df_existente ++ df_hoy.

(** What the pipeline does with the loaded table and today's one-row frame
    between loading and persisting: [concatenar], then [actualizar]. *)
Definition reconcile (T : Table) (row : Row) : Table :=
  paso_final_actualizar (concat_vertical T [row]).

(** [r] is the row that [unique(keep='last')] keeps for its date: the last
    row of [t] that has that date. *)
Definition survives (t : Table) (r : Row) : Prop :=
  last_only (filter (has_date (date r)) t) = [r].

End Frame.

Arguments Row V : clear implicits.
Arguments Table V : clear implicits.

(** ** The outside world: disk, clock, data sources *)

Section World.
Context {V : Type}.

(** The file at [ruta_data].  A Parquet file keeps its schema and row-group
    index in a footer that is written last, so a file that holds only the
    beginning of an encoding cannot be read back. *)
Inductive file : Type :=
| Absent
| Parquet (t : Table V)
| Partial (t : Table V).

(** The calls the program makes to the outside world, in the order made. *)
Inductive event : Type :=
| ev_read_parquet
| ev_get_coingecko
| ev_yf_download (simbolo : string)
| ev_sleep (seconds : Z)
| ev_write_parquet.

Record world : Type := mkWorld {
  disk : file;
  trace : list event
}.

(** How a call to [write_parquet] on the destination path ends. *)
Inductive write_outcome : Type :=
| write_completes
| write_fails_before_open
| write_fails_midway.

(** A pandas frame as [yf.download] returns it: its rows of cells. *)
Definition yf_frame : Type := list (list V).

(** What the outside world answers during one attempt: the date in
    [America/Caracas] when each fetch function reads the clock, the price,
    total volume and market cap that CoinGecko returns, the frame that Yahoo
    returns for a symbol, and how the write ends.  [None] is a call that
    raises (the request, the JSON decoding or the indexing of the
    answer). *)
Record entorno : Type := mkEntorno {
  hoy_bitcoin : Z;
  coingecko : option (V * V * V);
  hoy_instrumentos : Z;
  yahoo : string -> option yf_frame;
  escritura : write_outcome
}.

(** *** Python values and dictionaries *)

Inductive pyval : Type :=
| py_none
| py_date (d : Z)
| py_num (v : V).

(** A [dict] with string keys, in insertion order. *)
Definition dict : Type := list (string * pyval).

Fixpoint dict_get (k : string) (d : dict) : option pyval :=
  match d with
  | [] => None
  | (k', v) :: d' => if String.eqb k k' then Some v else dict_get k d'
  end.

(** [d[k] = v]: an existing key keeps its place, a new one goes last. *)
Fixpoint dict_set (k : string) (v : pyval) (d : dict) : dict :=
  match d with
  | [] => [(k, v)]
  | (k', v') :: d' =>
      if String.eqb k k' then (k', v) :: d' else (k', v') :: dict_set k v d'
  end.

(** [a | b]. *)
Definition dict_union (a b : dict) : dict :=
  fold_left (fun acc kv => dict_set (fst kv) (snd kv) acc) b a.

(** *** State and exceptions *)

Inductive result (A : Type) : Type :=
| Ok (a : A)
| Raised.
Arguments Raised {A}.

Definition M (A : Type) : Type := world -> result A * world.

Definition ret {A} (a : A) : M A := fun w => (Ok a, w).

Definition raise {A} : M A := fun w => (Raised, w).

Definition bind {A B} (m : M A) (f : A -> M B) : M B :=
  fun w =>
    match m w with
    | (Ok a, w') => f a w'
    | (Raised, w') => (Raised, w')
    end.

(** [try: m except Exception: handler]. *)
Definition try_except {A} (m : M A) (handler : M A) : M A :=
  fun w =>
    match m w with
    | (Ok a, w') => (Ok a, w')
    | (Raised, w') => handler w'
    end.

Definition emit (e : event) : M unit :=
  fun w => (Ok tt, mkWorld (disk w) (trace w ++ [e])).

Definition set_disk (f : file) : M unit :=
  fun w => (Ok tt, mkWorld f (trace w)).

Definition get_disk : M file := fun w => (Ok (disk w), w).

Notation "x <- m ;; k" := (bind m (fun x => k))
  (at level 61, m at next level, right associativity).
Notation "m ;;; k" := (bind m (fun _ => k))
  (at level 61, right associativity).

(** *** [retorna_data_bitcoin] *)

(** The answer is taken to hold three numbers; a JSON [null] among them,
    which the code would pass on as [None], is not represented. *)

Definition retorna_data_bitcoin (e : entorno) : M dict :=
  emit ev_get_coingecko ;;;
  match coingecko e with
  | Some (p, vol, cap) =>
      ret [("date"%string, py_date (hoy_bitcoin e));
           ("price"%string, py_num p);
           ("total_volume"%string, py_num vol);
           ("market_cap"%string, py_num cap)]
  | None => raise
  end.

(** *** [retorna_data_instrumentos] *)

(** The date of the clock is taken to be before the last day [date] can
    hold, so that [today + timedelta(days=1)] is defined. *)

Definition tickers : list (string * string) :=
  [("price_gold", "GC=F"); ("stock_index_dowjones", "^DJI");
   ("stock_index_sp500", "^GSPC"); ("rate_US10Y", "^TNX");
   ("stock_index_ni225", "^N225")]%string.

Definition yf_download (e : entorno) (simbolo : string) : M yf_frame :=
  emit (ev_yf_download simbolo) ;;;
  match yahoo e simbolo with
  | Some f => ret f
  | None => raise
  end.

(** [DataFrame.empty]: no rows, or no columns. *)
Definition empty (f : yf_frame) : bool :=
  match f with
  | [] => true
  | [] :: _ => true
  | (_ :: _) :: _ => false
  end.

(** [DataFrame.iloc[0, 0]]; raises out of range. *)
Definition iloc_0_0 (f : yf_frame) : M pyval :=
  match f with
  | (v :: _) :: _ => ret (py_num v)
  | _ => raise
  end.

(** What [valor] is for a response that did not raise: null for an empty
    frame, its first cell otherwise. *)
Definition primer_valor (f : yf_frame) : pyval :=
  match f with
  | (v :: _) :: _ => py_num v
  | _ => py_none
  end.

Definition valor_de (e : entorno) (simbolo : string) : pyval :=
  match yahoo e simbolo with
  | Some f => primer_valor f
  | None => py_none
  end.

(** The body of [for instrumento, simbolo in tickers.items()]. *)
Fixpoint descargar (e : entorno) (pendientes : list (string * string))
    (diccionario : dict) : M dict :=
  match pendientes with
  | [] => ret diccionario
  | (instrumento, simbolo) :: resto =>
      yahoo_response <- yf_download e simbolo ;;
      valor <- (if negb (empty yahoo_response) then iloc_0_0 yahoo_response
                else ret py_none) ;;
      emit (ev_sleep 15) ;;;
      descargar e resto (dict_set instrumento valor diccionario)
  end.

Definition retorna_data_instrumentos (e : entorno) : M dict :=
  if existsb (Z.eqb (weekday (hoy_instrumentos e))) [5; 6] then
    ret [("price_gold"%string, py_none);
         ("stock_index_dowjones"%string, py_none);
         ("stock_index_sp500"%string, py_none);
         ("rate_US10Y"%string, py_none);
         ("stock_index_ni225"%string, py_none)]
  else descargar e tickers [].

(** *** [cargar_data_existente], [obtener_data_hoy] *)

Definition cargar_data_existente : M (Table V) :=
  emit ev_read_parquet ;;;
  f <- get_disk ;;
  match f with
  | Parquet t => ret t
  | _ => raise
  end.

Definition obtener_data_hoy (e : entorno) : M dict :=
  data_bitcoin <- retorna_data_bitcoin e ;;
  data_instrumentos <- retorna_data_instrumentos e ;;
  ret (dict_union data_bitcoin data_instrumentos).

(** *** [concatenar], [actualizar] *)

(** A cell of the date column, of a numeric column. *)
Definition as_date (v : pyval) : option (option Z) :=
  match v with
  | py_none => Some None
  | py_date d => Some (Some d)
  | py_num _ => None
  end.

Definition as_num (v : pyval) : option (option V) :=
  match v with
  | py_none => Some None
  | py_num x => Some (Some x)
  | py_date _ => None
  end.

Definition get_as {A} (k : string) (conv : pyval -> option A) (d : dict)
    : option A :=
  match dict_get k d with
  | Some v => conv v
  | None => None
  end.

(** The one row of [pl.DataFrame(data_combinado)] when the dictionary has
    the schema of the table: its nine keys, a date under [date] and numbers
    elsewhere. *)
Definition row_of_dict (d : dict) : option (Row V) :=
  if negb (Nat.eqb (List.length d) 9) then None else
  match get_as "date" as_date d,
        get_as "price" as_num d,
        get_as "total_volume" as_num d,
        get_as "market_cap" as_num d,
        get_as "price_gold" as_num d,
        get_as "stock_index_dowjones" as_num d,
        get_as "stock_index_sp500" as_num d,
        get_as "rate_US10Y" as_num d,
        get_as "stock_index_ni225" as_num d with
  | Some a, Some b, Some c, Some d1, Some e1, Some f, Some g, Some h, Some i =>
      Some (mkRow a b c d1 e1 f g h i)
  | _, _, _, _, _, _, _, _, _ => None
  end.

(** [concatenar]: a vertical concatenation raises when the schemas differ.
    Column types are not modelled: every number is a value of the one type
    [V] and every stored column is taken to hold numbers of that type, so
    the exception that a number of another type (an integer in the JSON
    answer) or a stored column without a type would cause is not
    represented. *)
Definition concatenar (df_existente : Table V) (df_hoy : dict)
    : M (Table V) :=
  match row_of_dict df_hoy with
  | Some row => ret (concat_vertical df_existente [row])
  | None => raise
  end.

Definition actualizar (df : Table V) : M (Table V) :=
  ret (paso_final_actualizar df).

(** *** [persistir] *)

(** [df.write_parquet(ruta)] writes to the destination path itself: a
    call that completes leaves the encoding of [df] there; one that fails
    before the destination is opened leaves what was there; one that fails
    later leaves the beginning of the encoding of [df]. *)
Definition persistir (e : entorno) (df : Table V) : M unit :=
  emit ev_write_parquet ;;;
  match escritura e with
  | write_completes => set_disk (Parquet df)
  | write_fails_before_open => raise
  | write_fails_midway => set_disk (Partial df) ;;; raise
  end.

(** *** [pipeline_principal] *)

(** One pass through the body of the [try]. *)
Definition intento_pipeline (e : entorno) : M unit :=
  df <- cargar_data_existente ;;
  hoy <- obtener_data_hoy e ;;
  df <- concatenar df hoy ;;
  df <- actualizar df ;;
  persistir e df.

(** The stages of an attempt that come before [persistir]. *)
Definition antes_de_persistir (e : entorno) : M (Table V) :=
  df <- cargar_data_existente ;;
  hoy <- obtener_data_hoy e ;;
  df <- concatenar df hoy ;;
  actualizar df.

(** [for intento in ...]: the first attempt that does not raise ends the
    run; a failed one sleeps a minute and goes on to the next. *)
Fixpoint intentos (env : nat -> entorno) (pendientes : list nat) : M unit :=
  match pendientes with
  | [] => ret tt
  | intento :: resto =>
      try_except (intento_pipeline (env intento))
                 (emit (ev_sleep 60) ;;; intentos env resto)
  end.

Definition pipeline_principal (env : nat -> entorno) : M unit :=
  intentos env (seq 1 3).

(** The number of times [write_parquet] was called. *)
Definition writes (tr : list event) : nat :=
  List.length (filter (fun ev => match ev with
                                 | ev_write_parquet => true
                                 | _ => false
                                 end) tr).

(** The symbols [yf.download] was called with, in order. *)
Definition downloads (tr : list event) : list string :=
  flat_map (fun ev => match ev with
                      | ev_yf_download s => [s]
                      | _ => []
                      end) tr.

(** A computation that leaves the file alone: the disk is as it was and
    [write_parquet] was not called. *)
Definition preserves_store {A} (m : M A) : Prop :=
  forall w,
    disk (snd (m w)) = disk w /\
    writes (trace (snd (m w))) = writes (trace w).

End World.

Arguments file V : clear implicits.
Arguments world V : clear implicits.
Arguments entorno V : clear implicits.
Arguments pyval V : clear implicits.
Arguments dict V : clear implicits.
Arguments Raised {A}.

(** ** The retry loop seen from outside *)

Section Counting.
Context {V : Type}.

(** The number of events of a trace that satisfy [p]. *)
Definition cuenta (p : @event -> bool) (tr : list (@event)) : nat :=
  List.length (filter p tr).

Definition is_read (ev : @event) : bool :=
  match ev with
  | ev_read_parquet => true
  | _ => false
  end.

(** The pause between two attempts ([time.sleep(60)]); the pause after a
    download lasts fifteen seconds. *)
Definition is_backoff (ev : @event) : bool :=
  match ev with
  | ev_sleep n => n =? 60
  | _ => false
  end.

(** A computation that emits no event satisfying [p]. *)
Definition silent (p : @event -> bool) {A} (m : @M V A) : Prop :=
  forall w, cuenta p (trace (snd (m w))) = cuenta p (trace w).

(** A file that [read_parquet] cannot load. *)
Definition unreadable (f : file V) : Prop :=
  match f with
  | Parquet _ => False
  | _ => True
  end.

(** An attempt made on the file [f] ends with the result [r] and leaves
    the file [f'], whatever the program has done before. *)
Definition attempt_ends (e : entorno V) (f : file V) (r : result unit)
    (f' : file V) : Prop :=
  forall tr,
    fst (intento_pipeline e (mkWorld f tr)) = r /\
    disk (snd (intento_pipeline e (mkWorld f tr))) = f'.

End Counting.

(** ** [limpia_logs_viejos] *)

(** [str.startswith], [str.endswith]. *)
Definition startswith (pre s : string) : bool := String.prefix pre s.

Fixpoint endswith (suf s : string) : bool :=
  String.eqb s suf ||
  match s with
  | EmptyString => false
  | String _ s' => endswith suf s'
  end.

(** [s.split(sep)] for a separator of one character: the pieces between
    the separators, empty pieces included. *)
Fixpoint split (sep : ascii) (s : string) : list string :=
  match s with
  | EmptyString => [EmptyString]
  | String c s' =>
      if Ascii.eqb c sep then EmptyString :: split sep s'
      else match split sep s' with
           | pieza :: piezas => String c pieza :: piezas
           | [] => [String c EmptyString]
           end
  end.

(** [s.replace(old, new)] for a non-empty [old]: the occurrences of [old]
    are replaced from left to right, without overlap.  [skip] counts the
    characters of an occurrence still to be dropped. *)
Fixpoint replace_from (old new : string) (skip : nat) (s : string) : string :=
  match s with
  | EmptyString => EmptyString
  | String c s' =>
      match skip with
      | S k => replace_from old new k s'
      | O =>
          if String.prefix old s
          then (new ++ replace_from old new (String.length old - 1) s')%string
          else String c (replace_from old new 0 s')
      end
  end.

Definition replace (old new s : string) : string := replace_from old new 0 s.

(** Whether the character [c] occurs in [s]. *)
Fixpoint has_char (c : ascii) (s : string) : bool :=
  match s with
  | EmptyString => false
  | String c' s' => Ascii.eqb c' c || has_char c s'
  end.

(** An entry of the [logs] folder, which is a directory when it exists. *)
Record archivo : Type := mkArchivo {
  name : string;
  is_file : bool
}.

Definition dias_limite : Z := 15.

(** What becomes of one entry: removed, left alone, or left after an
    exception that the [except] of the loop body caught. *)
Inductive destino : Type :=
| eliminado
| conservado
| error_registrado.

Section Limpieza.
(** [datetime.strptime(fecha_str, "%Y-%m-%d").date()] as the ordinal of the
    date, [None] when it raises; today's date; whether [unlink] raises on
    the file of a given name. *)
Variable strptime : string -> option Z.
Variable hoy : Z.
Variable unlink_raises : string -> bool.

(** The body of the loop for one entry. *)
Definition procesar (a : archivo) : destino :=
  if is_file a && startswith "log_actualiza_db_" (name a)
     && endswith ".log" (name a)
  then
    match nth_error (split "_" (name a)) 3 with
    | None => error_registrado
    | Some parte =>
        let fecha_str := replace ".log" "" parte in
        match strptime fecha_str with
        | None => error_registrado
        | Some fecha_log =>
            let diferencia := hoy - fecha_log in
            if diferencia >? dias_limite then
              if unlink_raises (name a) then error_registrado
              else eliminado
            else conservado
        end
    end
  else conservado.

(** Whether the loop removes the entry. *)
Definition se_elimina (a : archivo) : bool :=
  match procesar a with
  | eliminado => true
  | _ => false
  end.

(** [for archivo in carpeta_logs.iterdir()]: the entries that are left and
    the count [eliminados]. *)
Fixpoint recorrer (archivos : list archivo) (eliminados : nat)
    : list archivo * nat :=
  match archivos with
  | [] => ([], eliminados)
  | a :: resto =>
      match procesar a with
      | eliminado => recorrer resto (S eliminados)
      | _ =>
          let (quedan, n) := recorrer resto eliminados in (a :: quedan, n)
      end
  end.

(** The folder is [None] when it does not exist. *)
Definition limpia_logs_viejos (carpeta_logs : option (list archivo))
    : option (list archivo) * nat :=
  match carpeta_logs with
  | None => (None, 0%nat)
  | Some archivos =>
      let (quedan, eliminados) := recorrer archivos 0 in
      (Some quedan, eliminados)
  end.

(** [__main__]: the pipeline, then the cleanup.  An exception out of
    [pipeline_principal] would end the process before the cleanup. *)
Definition main {V : Type} (env : nat -> entorno V) (w : world V)
    (carpeta_logs : option (list archivo))
    : world V * option (option (list archivo) * nat) :=
  match pipeline_principal env w with
  | (Ok _, w') => (w', Some (limpia_logs_viejos carpeta_logs))
  | (Raised, w') => (w', None)
  end.

End Limpieza.

(** ** Sample tables *)

(** A row that has only a date and a gold price, and the table whose gold
    column is [col], one row a day from day [d] on. *)
Definition gold_row {V : Type} (d : Z) (g : option V) : Row V :=
  mkRow (Some d) None None None g None None None None.

Fixpoint gold_table {V : Type} (d : Z) (col : list (option V)) : Table V :=
  match col with
  | [] => []
  | g :: col' => gold_row d g :: gold_table (d + 1) col'
  end.

(** Friday 2025-10-31 holds a gold price; the row stored for Monday
    2025-11-03 is replaced by one that has no gold price. *)
Definition ex_T : Table Z :=
  [gold_row 739555 (Some 5); gold_row 739558 (Some 7)].

Definition ex_new : Row Z := gold_row 739558 None.

(** Six rows out of date order, two of them for day 2; in date order, and
    with the later of the two rows of day 2, the gold column reads
    [5, null, null, 8, null]. *)
Definition ex_desorden : Table Z :=
  [gold_row 2 (Some 9); gold_row 3 None; gold_row 1 (Some 5);
   gold_row 5 None; gold_row 4 (Some 8); gold_row 2 None].

(** ** Sample environments *)

(** Monday 2025-11-03: every source answers, the Dow Jones frame is empty. *)
Definition ex_lunes : entorno Z :=
  mkEntorno 739558 (Some (100, 200, 300)) 739558
            (fun s => if String.eqb s "^DJI" then Some [] else Some [[42; 43]])
            write_completes.

(** Saturday 2025-11-01; a call to Yahoo would raise. *)
Definition ex_sabado : entorno Z :=
  mkEntorno 739556 (Some (100, 200, 300)) 739556 (fun _ => None)
            write_completes.

(** The crypto source is down. *)
Definition ex_sin_bitcoin : entorno Z :=
  mkEntorno 739558 None 739558 (fun _ => Some [[42]]) write_completes.

(** The write is cut short after the destination was opened. *)
Definition ex_corte : entorno Z :=
  mkEntorno 739558 (Some (100, 200, 300)) 739558 (fun _ => Some [[42]])
            write_fails_midway.

Definition ex_world : world Z := mkWorld (Parquet ex_T) [].

(** Monday 2025-11-03: the call for the S&P 500 raises. *)
Definition ex_yahoo_cae : entorno Z :=
  mkEntorno 739558 (Some (100, 200, 300)) 739558
            (fun s => if String.eqb s "^GSPC" then None else Some [[42]])
            write_completes.

(** The crypto source is down on the first attempt and back on the
    second. *)
Definition ex_reintento (intento : nat) : entorno Z :=
  if Nat.eqb intento 1 then ex_sin_bitcoin else ex_lunes.

(** No file at [ruta_data]. *)
Definition ex_sin_archivo : world Z := mkWorld Absent [].

(** ** A sample [logs] folder *)

(** The dates of the sample names, as [strptime] reads them. *)
Definition ex_strptime (fecha_str : string) : option Z :=
  if String.eqb fecha_str "2025-10-01" then Some 739525
  else if String.eqb fecha_str "2025-10-19" then Some 739543
  else None.

(** On 2025-11-03: a log of 33 days, a log of 15 days, a log whose name
    holds no date, a file that is no log, and a folder named like a log. *)
Definition ex_carpeta : list archivo :=
  [mkArchivo "log_actualiza_db_2025-10-01.log" true;
   mkArchivo "log_actualiza_db_2025-10-19.log" true;
   mkArchivo "log_actualiza_db_hoy.log" true;
   mkArchivo "notas.txt" true;
   mkArchivo "log_actualiza_db_2025-10-01.log" false].

(** * Facts *)

Unset Implicit Arguments.

(** ** The order on dates *)

Ltac date_cases :=
  unfold date_lt, date_le, date_ltb, date_leb, date_eqb in *;
  repeat match goal with
         | d : option Z |- _ => destruct d
         end;
  simpl in *;
  rewrite ?negb_true_iff, ?negb_false_iff, ?Z.leb_le, ?Z.leb_gt,
    ?Z.eqb_eq, ?Z.eqb_neq in *;
  try congruence; try lia.

Lemma date_eqb_eq (a b : option Z) : date_eqb a b = true <-> a = b.
Proof.
  split; intro H.
  - date_cases.
  - subst b. date_cases.
Qed.

Lemma date_eqb_refl (a : option Z) : date_eqb a a = true.
Proof. now apply date_eqb_eq. Qed.

Lemma date_eqb_sym (a b : option Z) : date_eqb a b = date_eqb b a.
Proof.
  destruct (date_eqb a b) eqn:E; symmetry.
  - apply date_eqb_eq in E. subst. apply date_eqb_refl.
  - destruct (date_eqb b a) eqn:E'; [|reflexivity].
    apply date_eqb_eq in E'. subst. now rewrite date_eqb_refl in E.
Qed.

Lemma date_le_trans (a b c : option Z) :
  date_le a b -> date_le b c -> date_le a c.
Proof. intros; date_cases. Qed.

Lemma date_lt_le (a b : option Z) : date_lt a b -> date_le a b.
Proof. intros; date_cases. Qed.

Lemma date_gt_of_not_le (a b : option Z) :
  date_leb a b = false -> date_lt b a.
Proof. intros; date_cases. Qed.

Lemma date_lt_irrefl (a : option Z) : ~ date_lt a a.
Proof. intro; date_cases. Qed.

Lemma date_lt_asym (a b : option Z) : date_lt a b -> ~ date_lt b a.
Proof. intros H H'; date_cases. Qed.

Lemma date_lt_neqb (a b : option Z) : date_lt a b -> date_eqb b a = false.
Proof.
  intro H. destruct (date_eqb b a) eqn:E; [|reflexivity].
  apply date_eqb_eq in E. subst. now apply date_lt_irrefl in H.
Qed.

Lemma date_lt_not_null (a b : option Z) : date_lt a b -> b <> None.
Proof. intros H E; subst; date_cases. Qed.

Lemma date_le_neq_lt (a b : option Z) :
  date_le a b -> date_eqb b a = false -> date_lt a b.
Proof.
  intros H E.
  assert (a <> b) by (intro; subst; now rewrite date_eqb_refl in E).
  clear E. date_cases.
  assert (z <> z0) by congruence. lia.
Qed.

Lemma increasing_nondecreasing (ds : list (option Z)) :
  increasing ds -> nondecreasing ds.
Proof.
  induction 1 as [|d ds _ IH Hd]; constructor; auto.
  eapply Forall_impl; [|exact Hd]. intros; now apply date_lt_le.
Qed.

(** ** Options and single columns *)

Section ColumnFacts.
Context {A : Type}.
Implicit Types (a b c : option A) (col : list (option A)).

Lemma coalesce_None_r a : coalesce a None = a.
Proof. now destruct a. Qed.

Lemma coalesce_idem a b : coalesce (coalesce a b) b = coalesce a b.
Proof. now destruct a, b. Qed.

Lemma coalesce_Some a b (v : A) : a = Some v -> coalesce a b = Some v.
Proof. now intros ->. Qed.

Lemma last_only_app_one (l : list A) (x : A) : last_only (l ++ [x]) = [x].
Proof.
  induction l as [|y l IH]; [reflexivity|].
  simpl. destruct (l ++ [x]) eqn:E; [now destruct l|exact IH].
Qed.

Lemma last_default (x d d' : A) (l : list A) :
  last (x :: l) d = last (x :: l) d'.
Proof.
  revert x. induction l as [|y l IH]; intro x; [reflexivity|].
  change (last (y :: l) d = last (y :: l) d'). apply IH.
Qed.

Lemma last_cons_self (x d : A) (l : list A) :
  last (x :: l) d = last l x.
Proof.
  destruct l as [|y l]; [reflexivity|].
  change (last (y :: l) d = last (y :: l) x). apply last_default.
Qed.

(** The [i]-th cell of a filled column is the last value seen among the
    first [i + 1] cells. *)
Lemma ffill_nth (seen : option A) col (i : nat) (x : option A) :
  nth_error col i = Some x ->
  nth_error (ffill seen col) i =
  Some (coalesce x (fold_left (fun s y => coalesce y s) (firstn i col) seen)).
Proof.
  revert seen i. induction col as [|y col IH]; intros seen i H.
  - now destruct i.
  - destruct i as [|i]; simpl in *.
    + now inversion H.
    + now apply IH.
Qed.
End ColumnFacts.

(** ** Sorting and deduplication *)

Section TableFacts.
Context {V : Type}.
Implicit Types (r s : Row V) (t : Table V) (D : option Z).

Lemma has_date_self r : has_date (date r) r = true.
Proof. apply date_eqb_refl. Qed.

Lemma has_date_eq D r : has_date D r = true <-> date r = D.
Proof. apply date_eqb_eq. Qed.

Lemma has_date_same D r s : date r = date s -> has_date D r = has_date D s.
Proof. unfold has_date. now intros ->. Qed.

Lemma filter_has_date_nil D t :
  (forall s, In s t -> date s <> D) -> filter (has_date D) t = [].
Proof.
  induction t as [|s t IH]; intro H; [reflexivity|].
  simpl. destruct (has_date D s) eqn:E.
  - apply has_date_eq in E. exfalso. apply (H s); [now left|exact E].
  - apply IH. intros x Hx. apply H. now right.
Qed.

Lemma existsb_has_date_false D t :
  existsb (has_date D) t = false -> filter (has_date D) t = [].
Proof.
  intro H. apply filter_has_date_nil. intros s Hs E.
  assert (existsb (has_date D) t = true) as H'.
  { apply existsb_exists. exists s. split; [exact Hs|now apply has_date_eq]. }
  congruence.
Qed.

Lemma existsb_has_date_true D t :
  existsb (has_date D) t = true -> filter (has_date D) t <> [].
Proof.
  intros H E. apply existsb_exists in H as (s & Hs & Hd).
  assert (In s (filter (has_date D) t)) as Hin by now apply filter_In.
  rewrite E in Hin. destruct Hin.
Qed.

(** *** Insertion keeps the order of the rows of each date: the sort is
    stable. *)

Lemma insert_by_date_In r s t :
  In s (insert_by_date r t) <-> s = r \/ In s t.
Proof.
  induction t as [|x t IH]; simpl.
  - intuition.
  - destruct (date_leb (date r) (date x)); simpl; [intuition|].
    rewrite IH. intuition.
Qed.

Lemma insert_by_date_filter D r t :
  filter (has_date D) (insert_by_date r t) = filter (has_date D) (r :: t).
Proof.
  induction t as [|x t IH]; [reflexivity|].
  simpl insert_by_date. destruct (date_leb (date r) (date x)) eqn:E;
    [reflexivity|].
  simpl filter at 1. rewrite IH. simpl.
  destruct (has_date D x) eqn:Hx, (has_date D r) eqn:Hr; try reflexivity.
  apply has_date_eq in Hx, Hr. rewrite Hx, Hr in E.
  exfalso. revert E. clear. intro E. date_cases.
Qed.

Lemma sort_by_date_filter D t :
  filter (has_date D) (sort_by_date t) = filter (has_date D) t.
Proof.
  induction t as [|r t IH]; [reflexivity|].
  simpl sort_by_date. rewrite insert_by_date_filter. simpl. now rewrite IH.
Qed.

(** The sort returns the rows it was given. *)
Lemma insert_by_date_perm r t : Permutation (insert_by_date r t) (r :: t).
Proof.
  induction t as [|x t IH]; simpl; [reflexivity|].
  destruct (date_leb (date r) (date x)); [reflexivity|].
  rewrite IH. apply perm_swap.
Qed.

Lemma sort_by_date_perm t : Permutation (sort_by_date t) t.
Proof.
  induction t as [|r t IH]; simpl; [reflexivity|].
  rewrite insert_by_date_perm. now constructor.
Qed.

Lemma insert_by_date_sorted r t :
  nondecreasing (dates t) -> nondecreasing (dates (insert_by_date r t)).
Proof.
  unfold nondecreasing, dates.
  induction t as [|x t IH]; intro H; simpl.
  - repeat constructor.
  - inversion H as [|? ? Ht Hx]; subst.
    destruct (date_leb (date r) (date x)) eqn:E; simpl.
    + constructor; [exact H|]. constructor; [exact E|].
      eapply Forall_impl; [|exact Hx].
      intros d Hd. now apply date_le_trans with (date x).
    + constructor; [now apply IH|].
      apply Forall_forall. intros d Hd.
      apply in_map_iff in Hd as (s & <- & Hs).
      apply insert_by_date_In in Hs as [->|Hs].
      * apply date_lt_le. now apply date_gt_of_not_le.
      * rewrite Forall_forall in Hx. apply Hx. now apply in_map.
Qed.

Lemma sort_by_date_sorted t : nondecreasing (dates (sort_by_date t)).
Proof.
  induction t as [|r t IH]; simpl.
  - constructor.
  - now apply insert_by_date_sorted.
Qed.

(** *** [unique] keeps the last row of every date *)

Lemma unique_keep_last_In s t : In s (unique_keep_last t) -> In s t.
Proof.
  induction t as [|r t IH]; simpl; [tauto|].
  destruct (existsb (has_date (date r)) t); simpl; intuition.
Qed.

Lemma unique_keep_last_filter D t :
  filter (has_date D) (unique_keep_last t) = last_only (filter (has_date D) t).
Proof.
  induction t as [|r t IH]; [reflexivity|].
  simpl. destruct (existsb (has_date (date r)) t) eqn:E.
  - rewrite IH. destruct (has_date D r) eqn:Hr; [|reflexivity].
    apply has_date_eq in Hr. subst D.
    apply existsb_has_date_true in E.
    destruct (filter (has_date (date r)) t); [congruence|reflexivity].
  - simpl. destruct (has_date D r) eqn:Hr; [|exact IH].
    apply has_date_eq in Hr. subst D.
    rewrite IH, (existsb_has_date_false _ _ E). reflexivity.
Qed.

Lemma unique_keep_last_increasing t :
  nondecreasing (dates t) -> increasing (dates (unique_keep_last t)).
Proof.
  unfold nondecreasing, increasing, dates.
  induction t as [|r t IH]; intro H; simpl; [constructor|].
  inversion H as [|? ? Ht Hr]; subst.
  destruct (existsb (has_date (date r)) t) eqn:E; [now apply IH|].
  simpl. constructor; [now apply IH|].
  apply Forall_forall. intros d Hd.
  apply in_map_iff in Hd as (s & <- & Hs).
  apply unique_keep_last_In in Hs.
  apply date_le_neq_lt.
  - rewrite Forall_forall in Hr. apply Hr. now apply in_map.
  - destruct (date_eqb (date s) (date r)) eqn:E'; [|reflexivity].
    assert (existsb (has_date (date r)) t = true) as E''; [|congruence].
    apply existsb_exists. now exists s.
Qed.

(** The two facts that determine [sorted_unique df]: its dates strictly
    ascend, and for each date it holds the last row [df] has for it. *)
Lemma sorted_unique_increasing t : increasing (dates (sorted_unique t)).
Proof. apply unique_keep_last_increasing, sort_by_date_sorted. Qed.

Lemma sorted_unique_filter D t :
  filter (has_date D) (sorted_unique t) = last_only (filter (has_date D) t).
Proof.
  unfold sorted_unique.
  now rewrite unique_keep_last_filter, sort_by_date_filter.
Qed.

(** *** Tables with strictly ascending dates *)

Lemma increasing_filter_above D t :
  Forall (date_lt D) (dates t) -> filter (has_date D) t = [].
Proof.
  intro H. apply filter_has_date_nil. intros s Hs E.
  rewrite Forall_forall in H.
  apply (date_lt_irrefl D). rewrite <- E at 2. apply H. now apply in_map.
Qed.

Lemma increasing_filter_In r t :
  increasing (dates t) -> In r t -> filter (has_date (date r)) t = [r].
Proof.
  unfold increasing, dates.
  induction t as [|x t IH]; intros H Hin; [destruct Hin|].
  inversion H as [|? ? Ht Hx]; subst. simpl.
  destruct Hin as [->|Hin].
  - rewrite has_date_self. f_equal. now apply increasing_filter_above.
  - assert (date_lt (date x) (date r)) as Hlt.
    { rewrite Forall_forall in Hx. apply Hx. now apply in_map. }
    unfold has_date at 1. rewrite (date_lt_neqb _ _ Hlt)
      || (rewrite date_eqb_sym, (date_lt_neqb _ _ Hlt)).
    all: now apply IH.
Qed.

Lemma increasing_filter_last_only D t :
  increasing (dates t) ->
  last_only (filter (has_date D) t) = filter (has_date D) t.
Proof.
  unfold increasing, dates.
  induction t as [|x t IH]; intro H; [reflexivity|].
  inversion H as [|? ? Ht Hx]; subst. simpl.
  destruct (has_date D x) eqn:E; [|now apply IH].
  apply has_date_eq in E. subst D.
  now rewrite (increasing_filter_above _ _ Hx).
Qed.

(** Two such tables holding the same rows date by date are the same. *)
Lemma increasing_ext t1 t2 :
  increasing (dates t1) -> increasing (dates t2) ->
  (forall D, filter (has_date D) t1 = filter (has_date D) t2) ->
  t1 = t2.
Proof.
  revert t2. induction t1 as [|r t1 IH]; intros [|s t2] H1 H2 H.
  - reflexivity.
  - specialize (H (date s)). simpl in H. now rewrite has_date_self in H.
  - specialize (H (date r)). simpl in H. now rewrite has_date_self in H.
  - assert (r = s) as ->.
    { pose proof (H (date r)) as Hr. pose proof (H (date s)) as Hs.
      rewrite (increasing_filter_In r _ H1 (or_introl eq_refl)) in Hr.
      rewrite (increasing_filter_In s _ H2 (or_introl eq_refl)) in Hs.
      simpl in Hr, Hs.
      destruct (has_date (date r) s) eqn:E.
      - now inversion Hr.
      - unfold has_date in E. rewrite date_eqb_sym in E.
        fold (has_date (date s) r) in E. rewrite E in Hs.
        assert (In r t2) as Hin2.
        { apply (proj1 (filter_In (has_date (date r)) r t2)).
          rewrite <- Hr. now left. }
        assert (In s t1) as Hin1.
        { apply (proj1 (filter_In (has_date (date s)) s t1)).
          rewrite Hs. now left. }
        unfold increasing, dates in H1, H2.
        inversion H1 as [|? ? _ F1]; inversion H2 as [|? ? _ F2]; subst.
        rewrite Forall_forall in F1, F2.
        exfalso. apply (date_lt_asym (date r) (date s)).
        + apply F1. now apply in_map.
        + apply F2. now apply in_map. }
    f_equal. unfold increasing, dates in H1, H2.
    inversion H1; inversion H2; subst.
    apply IH; auto.
    intro D. specialize (H D). simpl in H.
    destruct (has_date D s); [now inversion H|exact H].
Qed.
End TableFacts.

(** ** Forward fill *)

Section FillFacts.
Context {V : Type}.
Implicit Types (p r s : Row V) (t : Table V) (c : Col).

Lemma cell_fill_row c p r :
  cell c (fill_row p r) = coalesce (cell c r) (cell c p).
Proof. now destruct c. Qed.

Lemma fill_row_null r : fill_row null_row r = r.
Proof.
  destruct r. unfold fill_row. simpl. now rewrite !coalesce_None_r.
Qed.

(** Filling a row again from the row it was filled from changes nothing. *)
Lemma fill_row_idem p r : fill_row p (fill_row p r) = fill_row p r.
Proof. unfold fill_row. simpl. now rewrite !coalesce_idem. Qed.

Lemma fill_from_length p t : List.length (fill_from p t) = List.length t.
Proof.
  revert p. induction t as [|r t IH]; intro p; simpl; [|rewrite IH];
    reflexivity.
Qed.

Lemma fill_from_app p t1 t2 :
  fill_from p (t1 ++ t2) =
  fill_from p t1 ++ fill_from (last (fill_from p t1) p) t2.
Proof.
  revert p. induction t1 as [|r t1 IH]; intro p; [reflexivity|].
  change (fill_from p ((r :: t1) ++ t2))
    with (fill_row p r :: fill_from (fill_row p r) (t1 ++ t2)).
  change (fill_from p (r :: t1))
    with (fill_row p r :: fill_from (fill_row p r) t1).
  now rewrite IH, last_cons_self.
Qed.

Lemma fill_from_idem p t : fill_from p (fill_from p t) = fill_from p t.
Proof.
  revert p. induction t as [|r t IH]; intro p; [reflexivity|].
  simpl. rewrite fill_row_idem. f_equal. apply IH.
Qed.

(** The row-wise fill is the column-wise forward fill of every column. *)
Lemma column_fill_from c p t :
  column c (fill_from p t) = ffill (cell c p) (column c t).
Proof.
  revert p. induction t as [|r t IH]; intro p; [reflexivity|].
  simpl. rewrite IH, cell_fill_row. reflexivity.
Qed.

Lemma cell_null_row c : cell c (@null_row V) = None.
Proof. now destruct c. Qed.

Lemma column_fill_null_forward c t :
  column c (fill_null_forward t) = ffill None (column c t).
Proof.
  unfold fill_null_forward. now rewrite column_fill_from, cell_null_row.
Qed.

(** The row that fill carries below [t] holds, column by column, the last
    value seen in [t]. *)
Lemma cell_last_fill_from c p t :
  cell c (last (fill_from p t) p) =
  fold_left (fun seen x => coalesce x seen) (column c t) (cell c p).
Proof.
  revert p. induction t as [|r t IH]; intro p; [reflexivity|].
  change (fill_from p (r :: t))
    with (fill_row p r :: fill_from (fill_row p r) t).
  rewrite last_cons_self, IH, cell_fill_row. reflexivity.
Qed.

(** The date column has no null below its first cell when dates strictly
    ascend, so fill leaves it as it is. *)
Lemma dates_fill_from p t :
  Forall (fun d => d <> None) (dates t) -> dates (fill_from p t) = dates t.
Proof.
  unfold dates. revert p. induction t as [|r t IH]; intros p H;
    [reflexivity|].
  inversion H as [|? ? Hr Ht]; subst. simpl. rewrite IH by exact Ht.
  f_equal. destruct (date r); [reflexivity|congruence].
Qed.

Lemma dates_fill_null_forward t :
  increasing (dates t) -> dates (fill_null_forward t) = dates t.
Proof.
  unfold fill_null_forward, increasing.
  destruct t as [|r t]; intro H; [reflexivity|].
  change (fill_from null_row (r :: t))
    with (fill_row null_row r :: fill_from (fill_row null_row r) t).
  rewrite fill_row_null.
  change (date r :: dates (fill_from r t) = date r :: dates t).
  f_equal. apply dates_fill_from.
  inversion H as [|? ? Ht Hr]; subst.
  eapply Forall_impl; [|exact Hr].
  intros d Hd. exact (date_lt_not_null _ _ Hd).
Qed.

(** The date column is filled like any other. *)
Lemma dates_fill_null_forward_ffill t :
  dates (fill_null_forward t) = ffill None (dates t).
Proof.
  unfold fill_null_forward. change (@None Z) with (date (@null_row V)).
  generalize (@null_row V) as p. unfold dates.
  induction t as [|r t IH]; intro p; [reflexivity|].
  simpl. now rewrite IH.
Qed.

Lemma dates_paso_final_actualizar t :
  dates (paso_final_actualizar t) = dates (sorted_unique t).
Proof. apply dates_fill_null_forward, sorted_unique_increasing. Qed.

End FillFacts.

(** ** Reconciliation *)

Section ReconcileFacts.
Context {V : Type}.
Implicit Types (p r s row : Row V) (t T A B : Table V) (c : Col).

Lemma app_eq_length_inv {X : Type} (l1 l1' l2 l2' : list X) :
  List.length l1 = List.length l1' ->
  l1 ++ l2 = l1' ++ l2' -> l1 = l1' /\ l2 = l2'.
Proof.
  revert l1'. induction l1 as [|x l1 IH]; intros [|x' l1'] Hl H;
    try discriminate; [now split|].
  simpl in *. injection H as -> H. injection Hl as Hl.
  destruct (IH _ Hl H) as [-> ->]. now split.
Qed.

(** The appended row is the last row of its date, so it survives as it
    is in the sorted, deduplicated table. *)
Lemma sorted_unique_appended T row :
  filter (has_date (date row)) (sorted_unique (T ++ [row])) = [row].
Proof.
  rewrite sorted_unique_filter, filter_app. simpl.
  rewrite has_date_self. apply last_only_app_one.
Qed.

Lemma sorted_unique_appended_split T row :
  exists A B, sorted_unique (T ++ [row]) = A ++ row :: B.
Proof.
  apply in_split.
  apply (proj1 (filter_In (has_date (date row)) row _)).
  rewrite sorted_unique_appended. now left.
Qed.

(** Fill across a row: what is above is filled on its own, the row takes
    what the last filled row above carries, and the rows below follow. *)
Lemma fill_null_forward_split A row B :
  fill_null_forward (A ++ row :: B) =
  fill_null_forward A ++
  fill_row (last (fill_null_forward A) null_row) row ::
  fill_from (fill_row (last (fill_null_forward A) null_row) row) B.
Proof. unfold fill_null_forward. now rewrite fill_from_app. Qed.

Lemma increasing_split_dates A row B :
  increasing (dates (A ++ row :: B)) ->
  Forall (fun s => date_lt (date s) (date row)) A /\
  Forall (fun s => date_lt (date row) (date s)) B.
Proof.
  unfold increasing, dates. induction A as [|a A IH]; simpl; intro H.
  - inversion H as [|? ? _ Hb]; subst. split; [constructor|].
    apply Forall_forall. intros s Hs. rewrite Forall_forall in Hb.
    apply Hb. now apply in_map.
  - inversion H as [|? ? HA Ha]; subst.
    destruct (IH HA) as [IA IB]. split; [|exact IB].
    constructor; [|exact IA].
    rewrite Forall_forall in Ha. apply Ha.
    apply in_map. apply in_elt.
Qed.

(** Fill keeps the dates of a table whose dates strictly ascend, piece by
    piece. *)
Lemma fill_null_forward_split_dates A row B :
  increasing (dates (A ++ row :: B)) ->
  date (fill_row (last (fill_null_forward A) null_row) row) = date row /\
  dates (fill_null_forward A) = dates A /\
  dates (fill_from (fill_row (last (fill_null_forward A) null_row) row) B)
    = dates B.
Proof.
  intro Hinc. apply dates_fill_null_forward in Hinc.
  rewrite fill_null_forward_split in Hinc. unfold dates in Hinc.
  rewrite !map_app, !map_cons in Hinc.
  apply app_eq_length_inv in Hinc as [HA HB].
  - injection HB as Hrow HB. now repeat split.
  - unfold fill_null_forward. now rewrite !length_map, fill_from_length.
Qed.

Lemma reconcile_shape T row :
  exists A B,
    sorted_unique (T ++ [row]) = A ++ row :: B /\
    reconcile T row =
      fill_null_forward A ++
      fill_row (last (fill_null_forward A) null_row) row ::
      fill_from (fill_row (last (fill_null_forward A) null_row) row) B /\
    date (fill_row (last (fill_null_forward A) null_row) row) = date row /\
    dates (fill_null_forward A) = dates A /\
    dates (fill_from (fill_row (last (fill_null_forward A) null_row) row) B)
      = dates B.
Proof.
  destruct (sorted_unique_appended_split T row) as (A & B & HAB).
  exists A, B. split; [exact HAB|].
  assert (reconcile T row = fill_null_forward (A ++ row :: B)) as HR
    by (unfold reconcile, paso_final_actualizar, concat_vertical;
        now rewrite HAB).
  rewrite HR, fill_null_forward_split. split; [reflexivity|].
  apply fill_null_forward_split_dates. rewrite <- HAB.
  apply sorted_unique_increasing.
Qed.

(** C1. Reconciliation is idempotent: reconciling the reconciled table
    with the same row again gives the same table, for every table and
    every row. *)
Theorem reconcile_idempotent T row :
  reconcile (reconcile T row) row = reconcile T row.
Proof.
  destruct (reconcile_shape T row) as (A & B & HAB & HR & Hrow & HA & HB).
  set (A' := fill_null_forward A) in *.
  set (row' := fill_row (last A' null_row) row) in *.
  set (B' := fill_from row' B) in *.
  pose proof (sorted_unique_increasing (T ++ [row])) as Hinc.
  rewrite HAB in Hinc.
  assert (dates (A' ++ row' :: B') = dates (A ++ row :: B)) as Hd1
    by (unfold dates in *; rewrite !map_app, !map_cons;
        now rewrite HA, HB, Hrow).
  assert (dates (A' ++ row :: B') = dates (A ++ row :: B)) as Hd2
    by (unfold dates in *; rewrite !map_app, !map_cons; now rewrite HA, HB).
  assert (sorted_unique (reconcile T row ++ [row]) = A' ++ row :: B') as HS.
  { apply increasing_ext.
    - apply sorted_unique_increasing.
    - now rewrite Hd2.
    - intro D. rewrite sorted_unique_filter, filter_app. simpl.
      destruct (has_date D row) eqn:E.
      + rewrite last_only_app_one. apply has_date_eq in E. subst D.
        symmetry. apply increasing_filter_In; [now rewrite Hd2|apply in_elt].
      + rewrite app_nil_r, HR.
        rewrite increasing_filter_last_only by now rewrite Hd1.
        rewrite !filter_app. simpl.
        now rewrite (has_date_same D row' row Hrow), E. }
  unfold reconcile at 1. unfold paso_final_actualizar, concat_vertical.
  rewrite HS, fill_null_forward_split, HR.
  assert (fill_null_forward A' = A') as ->
    by (unfold A', fill_null_forward; apply fill_from_idem).
  fold row'. f_equal. f_equal. apply fill_from_idem.
Qed.

(** C4. The table returned by the reconciliation step has its rows in
    ascending order of date, for every input table. *)
Theorem paso_final_actualizar_sorted t :
  nondecreasing (dates (paso_final_actualizar t)).
Proof.
  rewrite dates_paso_final_actualizar.
  apply increasing_nondecreasing, sorted_unique_increasing.
Qed.

Lemma In_dates_filter D t :
  In D (dates t) <-> filter (has_date D) t <> [].
Proof.
  unfold dates. split.
  - intros H E. apply in_map_iff in H as (s & Hd & Hs).
    assert (In s (filter (has_date D) t)) as Hin
      by (apply filter_In; split; [exact Hs|now apply has_date_eq]).
    rewrite E in Hin. destruct Hin.
  - intro H. destruct (filter (has_date D) t) as [|s l] eqn:E; [congruence|].
    assert (In s (filter (has_date D) t)) as Hin by (rewrite E; now left).
    apply filter_In in Hin as [Hs Hd]. apply has_date_eq in Hd.
    apply in_map_iff. now exists s.
Qed.

Lemma last_only_nil {X : Type} (l : list X) : last_only l = [] <-> l = [].
Proof.
  split; [|now intros ->].
  induction l as [|x [|y l] IH]; [reflexivity|discriminate|].
  intro H. apply IH in H. discriminate.
Qed.

Lemma increasing_NoDup (ds : list (option Z)) : increasing ds -> NoDup ds.
Proof.
  induction 1 as [|d ds _ IH Hd]; constructor; [|exact IH].
  intro Hin. rewrite Forall_forall in Hd.
  exact (date_lt_irrefl d (Hd d Hin)).
Qed.

(** C9. The reconciliation step keeps the set of dates: a date appears in
    its output exactly when it appears in its input, and it appears there
    once. *)
Theorem paso_final_actualizar_dates t :
  (forall D, In D (dates (paso_final_actualizar t)) <-> In D (dates t)) /\
  NoDup (dates (paso_final_actualizar t)).
Proof.
  rewrite dates_paso_final_actualizar. split.
  - intro D. rewrite !In_dates_filter, sorted_unique_filter.
    now rewrite last_only_nil.
  - apply increasing_NoDup, sorted_unique_increasing.
Qed.

(** C10. Forward fill touches only nulls.  When [r] is the row that
    survives deduplication for its date (the last row the input has for
    that date) and its cell in column [c] holds a value, the output has
    exactly one row for that date and its cell in column [c] holds that
    same value. *)
Theorem paso_final_actualizar_keeps_values t r c (v : V) :
  last_only (filter (has_date (date r)) t) = [r] ->
  cell c r = Some v ->
  exists r',
    filter (has_date (date r)) (paso_final_actualizar t) = [r'] /\
    cell c r' = Some v.
Proof.
  intros Hr Hc. rewrite <- sorted_unique_filter in Hr.
  assert (In r (sorted_unique t)) as Hin.
  { apply (proj1 (filter_In (has_date (date r)) r _)). rewrite Hr. now left. }
  apply in_split in Hin as (A & B & HAB).
  pose proof (sorted_unique_increasing t) as Hinc. rewrite HAB in Hinc.
  destruct (fill_null_forward_split_dates _ _ _ Hinc) as (Hrow & _ & _).
  exists (fill_row (last (fill_null_forward A) null_row) r). split.
  - rewrite <- Hrow. apply increasing_filter_In.
    + rewrite dates_paso_final_actualizar. apply sorted_unique_increasing.
    + unfold paso_final_actualizar.
      rewrite HAB, fill_null_forward_split. apply in_elt.
  - rewrite cell_fill_row. now apply coalesce_Some.
Qed.

(** *** The value a null takes *)

Lemma firstn_snoc {X : Type} (l : list X) (i : nat) (x : X) :
  nth_error l i = Some x -> firstn (S i) l = firstn i l ++ [x].
Proof.
  revert i. induction l as [|y l IH]; intros [|i] H; try discriminate.
  - now inversion H.
  - simpl in H. change (y :: firstn (S i) l = y :: (firstn i l ++ [x])).
    f_equal. now apply IH.
Qed.

Lemma last_seen_nearest (col : list (option V)) (j : nat) (v : V) (n : nat) :
  nth_error col j = Some (Some v) ->
  (forall k, (j < k < S j + n)%nat -> nth_error col k = Some None) ->
  last_seen (firstn (S j + n) col) = Some v.
Proof.
  intros Hj. unfold last_seen. induction n as [|n IH]; intro Hk.
  - rewrite Nat.add_0_r, (firstn_snoc _ _ _ Hj), fold_left_app. reflexivity.
  - rewrite Nat.add_succ_r.
    rewrite (firstn_snoc col (S j + n) None) by (apply Hk; lia).
    rewrite fold_left_app. simpl. apply IH. intros k H. apply Hk. lia.
Qed.

Lemma last_seen_nulls (col : list (option V)) (i : nat) :
  (forall j, (j < i)%nat -> nth_error col j = Some None) ->
  last_seen (firstn i col) = None.
Proof.
  unfold last_seen. induction i as [|i IH]; intro H; [reflexivity|].
  rewrite (firstn_snoc col i None) by (apply H; lia).
  rewrite fold_left_app. simpl. apply IH. intros j Hj. apply H. lia.
Qed.

(** In the output, a cell that was null holds the last value seen above
    it in its column. *)
Lemma paso_final_actualizar_null_cell t c (i : nat) :
  nth_error (column c (sorted_unique t)) i = Some None ->
  nth_error (column c (paso_final_actualizar t)) i =
  Some (last_seen (firstn i (column c (sorted_unique t)))).
Proof.
  intro H. unfold paso_final_actualizar.
  rewrite column_fill_null_forward. now rewrite (ffill_nth _ _ _ _ H).
Qed.

Lemma paso_final_actualizar_fills t c (i j : nat) (v : V) :
  nth_error (column c (sorted_unique t)) i = Some None ->
  (j < i)%nat ->
  nth_error (column c (sorted_unique t)) j = Some (Some v) ->
  (forall k, (j < k < i)%nat ->
             nth_error (column c (sorted_unique t)) k = Some None) ->
  nth_error (column c (paso_final_actualizar t)) i = Some (Some v).
Proof.
  intros Hi Hji Hj Hk. rewrite (paso_final_actualizar_null_cell _ _ _ Hi).
  f_equal. replace i with (S j + (i - S j))%nat in * by lia.
  now apply last_seen_nearest.
Qed.

(** Among the cells above the [i]-th that hold a value, one is nearest. *)
Lemma nearest_value_exists (col : list (option V)) (i : nat) :
  (i < List.length col)%nat ->
  (exists j v, (j < i)%nat /\ nth_error col j = Some (Some v)) ->
  exists j v,
    (j < i)%nat /\ nth_error col j = Some (Some v) /\
    forall k, (j < k < i)%nat -> nth_error col k = Some None.
Proof.
  induction i as [|i IH]; intros Hlen (j & v & Hj & Hv); [lia|].
  destruct (nth_error col i) as [[x|]|] eqn:Ei.
  - exists i, x. repeat split; [lia|exact Ei|]. intros k Hk. lia.
  - assert (j <> i) as Hne by (intro; subst; congruence).
    destruct IH as (j' & v' & Hj' & Hv' & Hk');
      [lia|exists j, v; split; [lia|exact Hv]|].
    exists j', v'. repeat split; [lia|exact Hv'|].
    intros k Hk. destruct (Nat.eq_dec k i) as [->|Hki]; [exact Ei|].
    apply Hk'. lia.
  - apply nth_error_None in Ei. lia.
Qed.

Lemma paso_final_actualizar_fills_some t c (i : nat) :
  nth_error (column c (sorted_unique t)) i = Some None ->
  (exists j v, (j < i)%nat /\
               nth_error (column c (sorted_unique t)) j = Some (Some v)) ->
  exists v, nth_error (column c (paso_final_actualizar t)) i = Some (Some v).
Proof.
  intros Hi Hex.
  destruct (nearest_value_exists (column c (sorted_unique t)) i)
    as (j & v & Hj & Hv & Hk); [|exact Hex|].
  - apply nth_error_Some. congruence.
  - exists v. exact (paso_final_actualizar_fills t c i j v Hi Hj Hv Hk).
Qed.

Lemma paso_final_actualizar_leaves_null t c (i : nat) :
  nth_error (column c (sorted_unique t)) i = Some None ->
  (forall j, (j < i)%nat ->
             nth_error (column c (sorted_unique t)) j = Some None) ->
  nth_error (column c (paso_final_actualizar t)) i = Some None.
Proof.
  intros Hi Hj. rewrite (paso_final_actualizar_null_cell _ _ _ Hi).
  f_equal. now apply last_seen_nulls.
Qed.
End ReconcileFacts.

(** ** The fetch functions *)

Section FetchFacts.
Context {V : Type}.
Implicit Types (e : entorno V) (w : world V) (d : dict V) (f : @yf_frame V).

Lemma weekend_check (n : Z) :
  existsb (Z.eqb n) [5; 6] = true <-> n = 5 \/ n = 6.
Proof.
  simpl. rewrite !orb_true_iff, !Z.eqb_eq. intuition congruence.
Qed.

Lemma business_day_check (n : Z) :
  n <> 5 -> n <> 6 -> existsb (Z.eqb n) [5; 6] = false.
Proof.
  intros H5 H6. destruct (existsb (Z.eqb n) [5; 6]) eqn:E; [|reflexivity].
  apply weekend_check in E. tauto.
Qed.

(** One turn of the loop over the tickers, when the call does not raise:
    the call, the fifteen seconds, and the value stored under the
    instrument. *)
Lemma descargar_step e instrumento simbolo resto d w f :
  yahoo e simbolo = Some f ->
  descargar e ((instrumento, simbolo) :: resto) d w =
  descargar e resto (dict_set instrumento (primer_valor f) d)
    (mkWorld (disk w)
             (trace w ++ [ev_yf_download simbolo; ev_sleep 15])).
Proof.
  intro H. cbn [descargar]. unfold bind, yf_download, emit, bind. rewrite H.
  destruct f as [|[|v fila] filas]; cbn; rewrite <- app_assoc; reflexivity.
Qed.

Lemma valor_de_Some e simbolo f :
  yahoo e simbolo = Some f -> primer_valor f = valor_de e simbolo.
Proof. unfold valor_de. now intros ->. Qed.

Lemma downloads_app (tr1 tr2 : list event) :
  downloads (tr1 ++ tr2) = downloads tr1 ++ downloads tr2.
Proof. unfold downloads. apply flat_map_app. Qed.

(** C5. On a Saturday or a Sunday (by the reference clock)
    [retorna_data_instrumentos] returns a null for each of the five
    instruments and leaves the world as it found it: no call to the
    instrument source is made.  With the crypto source answering, today's
    row has its five instrument fields null and the trace still holds no
    download. *)
Theorem weekend_short_circuit e w :
  weekday (hoy_instrumentos e) = 5 \/ weekday (hoy_instrumentos e) = 6 ->
  retorna_data_instrumentos e w =
    (Ok [("price_gold"%string, py_none);
         ("stock_index_dowjones"%string, py_none);
         ("stock_index_sp500"%string, py_none);
         ("rate_US10Y"%string, py_none);
         ("stock_index_ni225"%string, py_none)], w) /\
  forall p vol cap, coingecko e = Some (p, vol, cap) ->
    exists hoy w',
      obtener_data_hoy e w = (Ok hoy, w') /\
      row_of_dict hoy =
        Some (mkRow (Some (hoy_bitcoin e)) (Some p) (Some vol) (Some cap)
                    None None None None None) /\
      downloads (trace w') = downloads (trace w).
Proof.
  intro H. apply weekend_check in H.
  assert (retorna_data_instrumentos e w =
    (Ok [("price_gold"%string, py_none);
         ("stock_index_dowjones"%string, py_none);
         ("stock_index_sp500"%string, py_none);
         ("rate_US10Y"%string, py_none);
         ("stock_index_ni225"%string, py_none)], w)) as Hi
    by (unfold retorna_data_instrumentos; now rewrite H).
  split; [exact Hi|].
  intros p vol cap Hb.
  unfold obtener_data_hoy, bind, retorna_data_bitcoin, emit. simpl.
  rewrite Hb. unfold ret at 1.
  unfold retorna_data_instrumentos. rewrite H. unfold ret.
  eexists. eexists. split; [reflexivity|]. split; [reflexivity|].
  simpl. rewrite downloads_app. simpl. apply app_nil_r.
Qed.

(** C7. On a business day, when no call to the instrument source raises,
    the five instruments are fetched one after the other, the dictionary is
    returned with its five fields, and each field holds what its own
    response gives: null when that response is empty, its first cell
    otherwise. *)
Theorem business_day_tolerance e w :
  weekday (hoy_instrumentos e) <> 5 ->
  weekday (hoy_instrumentos e) <> 6 ->
  (forall simbolo, In simbolo (map snd tickers) -> yahoo e simbolo <> None) ->
  (exists w',
    retorna_data_instrumentos e w =
      (Ok [("price_gold"%string, valor_de e "GC=F");
           ("stock_index_dowjones"%string, valor_de e "^DJI");
           ("stock_index_sp500"%string, valor_de e "^GSPC");
           ("rate_US10Y"%string, valor_de e "^TNX");
           ("stock_index_ni225"%string, valor_de e "^N225")], w') /\
    disk w' = disk w /\
    downloads (trace w') =
      downloads (trace w) ++ ["GC=F"; "^DJI"; "^GSPC"; "^TNX"; "^N225"]%string)
  /\
  (forall simbolo f, yahoo e simbolo = Some f ->
     (empty f = true -> valor_de e simbolo = py_none) /\
     (forall v fila filas, f = (v :: fila) :: filas ->
                           valor_de e simbolo = py_num v)).
Proof.
  intros H5 H6 Hy. split.
  - unfold retorna_data_instrumentos.
    rewrite (business_day_check _ H5 H6). unfold tickers.
    assert (forall s, In s (map snd (@tickers)) ->
                      exists f, yahoo e s = Some f) as Hf.
    { intros s Hs. specialize (Hy s Hs).
      destruct (yahoo e s) as [f|]; [now exists f|congruence]. }
    destruct (Hf "GC=F"%string) as [f1 E1]; [simpl; tauto|].
    destruct (Hf "^DJI"%string) as [f2 E2]; [simpl; tauto|].
    destruct (Hf "^GSPC"%string) as [f3 E3]; [simpl; tauto|].
    destruct (Hf "^TNX"%string) as [f4 E4]; [simpl; tauto|].
    destruct (Hf "^N225"%string) as [f5 E5]; [simpl; tauto|].
    rewrite (descargar_step _ _ _ _ _ _ _ E1).
    rewrite (descargar_step _ _ _ _ _ _ _ E2).
    rewrite (descargar_step _ _ _ _ _ _ _ E3).
    rewrite (descargar_step _ _ _ _ _ _ _ E4).
    rewrite (descargar_step _ _ _ _ _ _ _ E5).
    rewrite (valor_de_Some _ _ _ E1), (valor_de_Some _ _ _ E2),
      (valor_de_Some _ _ _ E3), (valor_de_Some _ _ _ E4),
      (valor_de_Some _ _ _ E5).
    eexists. split; [reflexivity|]. split; [reflexivity|].
    cbn [trace disk]. rewrite !downloads_app. cbn [downloads flat_map app].
    now rewrite <- !app_assoc.
  - intros simbolo f E. unfold valor_de. rewrite E. split.
    + destruct f as [|[|v fila] filas]; simpl; congruence.
    + now intros v fila filas ->.
Qed.
End FetchFacts.

(** ** The store and the retry loop *)

Section PipelineFacts.
Context {V : Type}.
Implicit Types (e : entorno V) (w : world V) (df : Table V).

(** *** Stages that leave the file alone *)

Lemma preserves_ret {A : Type} (a : A) : preserves_store (@ret V A a).
Proof. intro w. now split. Qed.

Lemma preserves_raise {A : Type} : preserves_store (@raise V A).
Proof. intro w. now split. Qed.

Lemma preserves_bind {A B : Type} (m : @M V A) (f : A -> @M V B) :
  preserves_store m -> (forall a, preserves_store (f a)) ->
  preserves_store (bind m f).
Proof.
  intros Hm Hf w. unfold bind. destruct (Hm w) as [Hd Hw].
  destruct (m w) as [[a|] w']; simpl in *.
  - destruct (Hf a w') as [Hd' Hw']. split; congruence.
  - now split.
Qed.

Lemma writes_app (tr1 tr2 : list (@event)) :
  writes (tr1 ++ tr2) = (writes tr1 + writes tr2)%nat.
Proof. unfold writes. now rewrite filter_app, length_app. Qed.

Lemma preserves_emit (ev : event) :
  ev <> ev_write_parquet -> preserves_store (@emit V ev).
Proof.
  intros H w. unfold emit. simpl. split; [reflexivity|].
  rewrite writes_app. destruct ev; try congruence; unfold writes; simpl; lia.
Qed.

Lemma preserves_get_disk : preserves_store (@get_disk V).
Proof. intro w. now split. Qed.

Create HintDb store.
Local Hint Resolve preserves_ret preserves_raise preserves_get_disk : store.

Ltac quiet :=
  repeat first
    [ solve [auto with store]
    | apply preserves_emit; discriminate
    | apply preserves_bind; [|intro] ].

Lemma preserves_cargar_data_existente :
  preserves_store (@cargar_data_existente V).
Proof. unfold cargar_data_existente. quiet. destruct a0; quiet. Qed.

Local Hint Resolve preserves_cargar_data_existente : store.

Lemma preserves_retorna_data_bitcoin e :
  preserves_store (retorna_data_bitcoin e).
Proof.
  unfold retorna_data_bitcoin. quiet.
  destruct (coingecko e) as [[[p vol] cap]|]; quiet.
Qed.

Local Hint Resolve preserves_retorna_data_bitcoin : store.

Lemma preserves_descargar e pendientes (d : dict V) :
  preserves_store (descargar e pendientes d).
Proof.
  revert d. induction pendientes as [|[instrumento simbolo] resto IH];
    intro d; simpl; quiet.
  - destruct (yahoo e simbolo); quiet.
  - destruct (negb (empty a)); quiet.
    unfold iloc_0_0. destruct a as [|[|v fila] filas]; quiet.
Qed.

Lemma preserves_retorna_data_instrumentos e :
  preserves_store (retorna_data_instrumentos e).
Proof.
  unfold retorna_data_instrumentos.
  destruct (existsb _ _); [quiet|apply preserves_descargar].
Qed.

Local Hint Resolve preserves_retorna_data_instrumentos : store.

Lemma preserves_obtener_data_hoy e : preserves_store (obtener_data_hoy e).
Proof. unfold obtener_data_hoy. quiet. Qed.

Lemma preserves_concatenar df (hoy : dict V) :
  preserves_store (concatenar df hoy).
Proof. unfold concatenar. destruct (row_of_dict hoy); quiet. Qed.

Local Hint Resolve preserves_obtener_data_hoy preserves_concatenar : store.

Lemma preserves_antes_de_persistir e :
  preserves_store (antes_de_persistir e).
Proof. unfold antes_de_persistir, actualizar. quiet. Qed.

(** *** One attempt *)

Lemma intento_pipeline_stages e w :
  intento_pipeline e w = bind (antes_de_persistir e) (persistir e) w.
Proof.
  unfold intento_pipeline, antes_de_persistir, bind.
  destruct (cargar_data_existente w) as [[df|] w1]; [|reflexivity].
  destruct (obtener_data_hoy e w1) as [[hoy|] w2]; [|reflexivity].
  destruct (concatenar df hoy w2) as [[df'|] w3]; [|reflexivity].
  destruct (actualizar df' w3) as [[df''|] w4]; reflexivity.
Qed.

(** An attempt that fails before [persistir] raises, with the disk as it
    was and no call to [write_parquet]. *)
Lemma intento_pipeline_fails_early e w :
  fst (antes_de_persistir e w) = Raised ->
  fst (intento_pipeline e w) = Raised /\
  disk (snd (intento_pipeline e w)) = disk w /\
  writes (trace (snd (intento_pipeline e w))) = writes (trace w).
Proof.
  intro H. rewrite intento_pipeline_stages. unfold bind.
  destruct (preserves_antes_de_persistir e w) as [Hd Hw].
  destruct (antes_de_persistir e w) as [[df|] w']; simpl in *;
    [discriminate|now repeat split].
Qed.

Lemma intentos_fail_early (env : nat -> entorno V) (pendientes : list nat) w :
  (forall i tr, In i pendientes ->
     fst (antes_de_persistir (env i) (mkWorld (disk w) tr)) = Raised) ->
  fst (intentos env pendientes w) = Ok tt /\
  disk (snd (intentos env pendientes w)) = disk w /\
  writes (trace (snd (intentos env pendientes w))) = writes (trace w).
Proof.
  revert w. induction pendientes as [|i resto IH]; intros w H.
  - now repeat split.
  - assert (fst (antes_de_persistir (env i) w) = Raised) as Hi.
    { specialize (H i (trace w) (or_introl eq_refl)). now destruct w. }
    destruct (intento_pipeline_fails_early _ _ Hi) as (Hr & Hd & Hw).
    cbn [intentos]. unfold try_except.
    destruct (intento_pipeline (env i) w) as [[[]|] w1]; simpl in *;
      [discriminate|].
    unfold bind, emit.
    set (w2 := mkWorld (disk w1) (trace w1 ++ [ev_sleep 60])).
    destruct (IH w2) as (Hr2 & Hd2 & Hw2).
    { intros k tr Hk. simpl. rewrite Hd. apply H. now right. }
    repeat split; [exact Hr2|now rewrite Hd2|].
    rewrite Hw2. unfold w2. simpl. rewrite writes_app, Hw.
    unfold writes at 2. simpl. lia.
Qed.

(** C6. When a stage before [persistir] fails on each of the three
    attempts of a run (so in particular when the fetch does), the run ends
    with the file exactly as it was, and [write_parquet] was not called. *)
Theorem retry_exhaustion_preserves_store (env : nat -> entorno V) w :
  (forall i tr, In i (seq 1 3) ->
     fst (antes_de_persistir (env i) (mkWorld (disk w) tr)) = Raised) ->
  fst (pipeline_principal env w) = Ok tt /\
  disk (snd (pipeline_principal env w)) = disk w /\
  writes (trace (snd (pipeline_principal env w))) = writes (trace w).
Proof. apply intentos_fail_early. Qed.

(** A fetch that fails is such a stage. *)
Lemma antes_de_persistir_sin_bitcoin e w :
  coingecko e = None -> fst (antes_de_persistir e w) = Raised.
Proof.
  intro H. unfold antes_de_persistir, bind, cargar_data_existente, bind,
    emit, get_disk. simpl.
  destruct (disk w); try reflexivity.
  unfold ret at 1. unfold obtener_data_hoy, bind, retorna_data_bitcoin, bind,
    emit. simpl. now rewrite H.
Qed.

Lemma fetch_exhaustion_preserves_store (env : nat -> entorno V) w :
  (forall i, In i (seq 1 3) -> coingecko (env i) = None) ->
  disk (snd (pipeline_principal env w)) = disk w /\
  writes (trace (snd (pipeline_principal env w))) = writes (trace w).
Proof.
  intro H. apply (intentos_fail_early env (seq 1 3) w).
  intros i tr Hi. apply antes_de_persistir_sin_bitcoin. now apply H.
Qed.

(** An attempt whose stages all succeed leaves on disk the reconciliation
    of the table it loaded with the row of the day. *)
Lemma intento_pipeline_persists e w T (hoy : dict V) w1 row :
  disk w = Parquet T ->
  obtener_data_hoy e (mkWorld (disk w) (trace w ++ [ev_read_parquet])) =
    (Ok hoy, w1) ->
  row_of_dict hoy = Some row ->
  escritura e = write_completes ->
  fst (intento_pipeline e w) = Ok tt /\
  disk (snd (intento_pipeline e w)) = Parquet (reconcile T row).
Proof.
  intros Hd Hh Hr He.
  assert (intento_pipeline e w =
          (Ok tt, mkWorld (Parquet (reconcile T row))
                          (trace w1 ++ [ev_write_parquet]))) as ->;
    [|now split].
  unfold intento_pipeline, bind, cargar_data_existente, bind, emit, get_disk.
  cbn [fst snd disk trace]. rewrite Hd in *. unfold ret at 1. rewrite Hh.
  unfold concatenar. rewrite Hr. unfold ret, actualizar, ret.
  unfold persistir, bind, emit. now rewrite He.
Qed.

(** *** [persistir] *)

(** C8, as the code has it.  [persistir] writes to the destination path
    itself.  When the write is not cut short after the destination was
    opened, the file is left whole: a write that completes leaves the
    complete new table, which the next load returns, and a write that
    fails before the destination is opened leaves the old file. *)
Theorem persistir_whole_file e df w :
  escritura e <> write_fails_midway ->
  (escritura e = write_completes /\
   fst (persistir e df w) = Ok tt /\
   disk (snd (persistir e df w)) = Parquet df /\
   fst (cargar_data_existente (snd (persistir e df w))) = Ok df) \/
  (escritura e = write_fails_before_open /\
   fst (persistir e df w) = Raised /\
   disk (snd (persistir e df w)) = disk w).
Proof.
  intro H. unfold persistir, bind, emit. simpl.
  destruct (escritura e); [left|right|congruence]; now repeat split.
Qed.
End PipelineFacts.

(** ** Forward fill in date order *)

Section FillByDate.
Context {V : Type}.
Implicit Types (r s x : Row V) (t A B : Table V) (c : Col).

(** The table that forward fill receives holds the rows that survive the
    deduplication, and no other. *)
Lemma sorted_unique_survives t r : In r (sorted_unique t) <-> survives t r.
Proof.
  unfold survives. rewrite <- sorted_unique_filter. split; intro H.
  - apply increasing_filter_In; [apply sorted_unique_increasing|exact H].
  - apply (proj1 (filter_In (has_date (date r)) r _)). rewrite H. now left.
Qed.

Lemma last_only_In {X : Type} (l : list X) (x : X) :
  last_only l = [x] -> In x l.
Proof.
  induction l as [|y [|z l] IH]; intro H; [discriminate| |].
  - injection H as ->. now left.
  - right. now apply IH.
Qed.

(** A surviving row is a row of the input, and when the dates of the input
    are all different every row of the input survives. *)
Lemma survives_In t r : survives t r -> In r t.
Proof.
  intro H. apply last_only_In in H. now apply filter_In in H as [H _].
Qed.

Lemma NoDup_survives t r : NoDup (dates t) -> In r t -> survives t r.
Proof.
  unfold survives, dates. induction t as [|a t IH]; intros Hnd Hin;
    [destruct Hin|].
  cbn [map] in Hnd. inversion Hnd as [|? ? Ha Ht]; subst. cbn [filter].
  destruct Hin as [->|Hin].
  - rewrite has_date_self, filter_has_date_nil; [reflexivity|].
    intros s Hs E. apply Ha. rewrite <- E. now apply in_map.
  - destruct (has_date (date r) a) eqn:E; [|now apply IH].
    exfalso. apply has_date_eq in E. apply Ha. rewrite E. now apply in_map.
Qed.

Lemma fold_coalesce_nulls (seen : option V) (col : list (option V)) :
  Forall (fun y => y = None) col ->
  fold_left (fun acc y => coalesce y acc) col seen = seen.
Proof.
  intro H. revert seen.
  induction H as [|y col Hy _ IH]; intro seen; [reflexivity|].
  simpl. subst y. apply IH.
Qed.

Lemma fold_coalesce_Some (col : list (option V)) (v : V) :
  exists v', fold_left (fun acc y => coalesce y acc) col (Some v) = Some v'.
Proof.
  revert v. induction col as [|[y|] col IH]; intro v; simpl; eauto.
Qed.

(** The last value seen is the one below which the column holds only
    nulls. *)
Lemma last_seen_after (col1 col2 : list (option V)) (v : V) :
  Forall (fun y => y = None) col2 ->
  last_seen (col1 ++ Some v :: col2) = Some v.
Proof.
  intro H. unfold last_seen. rewrite fold_left_app. simpl.
  now apply fold_coalesce_nulls.
Qed.

Lemma last_seen_Some (col : list (option V)) (v : V) :
  In (Some v) col -> exists v', last_seen col = Some v'.
Proof.
  intro H. apply in_split in H as (col1 & col2 & ->).
  unfold last_seen. rewrite fold_left_app. simpl. apply fold_coalesce_Some.
Qed.

Lemma last_seen_None (col : list (option V)) :
  Forall (fun y => y = None) col -> last_seen col = None.
Proof. apply fold_coalesce_nulls. Qed.

(** What forward fill puts in a null cell, told by the dates of the rows
    of the input. *)
Lemma paso_final_actualizar_by_date t c r :
  survives t r -> cell c r = None ->
  exists r',
    filter (has_date (date r)) (paso_final_actualizar t) = [r'] /\
    (forall s (v : V),
       survives t s -> date_lt (date s) (date r) -> cell c s = Some v ->
       (forall x, survives t x -> date_lt (date s) (date x) ->
                  date_lt (date x) (date r) -> cell c x = None) ->
       cell c r' = Some v) /\
    ((exists s (v : V),
        survives t s /\ date_lt (date s) (date r) /\ cell c s = Some v) ->
     exists v, cell c r' = Some v) /\
    ((forall s, survives t s -> date_lt (date s) (date r) ->
                cell c s = None) ->
     cell c r' = None).
Proof.
  intros Hr Hc. apply sorted_unique_survives in Hr.
  apply in_split in Hr as (A & B & HAB).
  pose proof (sorted_unique_increasing t) as Hinc. rewrite HAB in Hinc.
  destruct (fill_null_forward_split_dates _ _ _ Hinc) as (Hrow & _ & _).
  destruct (increasing_split_dates _ _ _ Hinc) as [FA FB].
  rewrite Forall_forall in FA, FB.
  assert (forall x, In x A -> survives t x) as HA.
  { intros x Hx. apply sorted_unique_survives. rewrite HAB.
    apply in_or_app. now left. }
  assert (forall s, survives t s -> date_lt (date s) (date r) -> In s A)
    as Hearlier.
  { intros s Hs Hlt. apply sorted_unique_survives in Hs. rewrite HAB in Hs.
    apply in_app_or in Hs as [Hs|[<-|Hs]]; [exact Hs| |].
    - now apply date_lt_irrefl in Hlt.
    - exfalso. exact (date_lt_asym _ _ Hlt (FB s Hs)). }
  exists (fill_row (last (fill_null_forward A) null_row) r).
  assert (cell c (fill_row (last (fill_null_forward A) null_row) r) =
          last_seen (column c A)) as Hcell.
  { rewrite cell_fill_row, Hc. unfold fill_null_forward. cbn [coalesce].
    rewrite cell_last_fill_from. now rewrite cell_null_row. }
  split; [|split; [|split]].
  - rewrite <- Hrow. apply increasing_filter_In.
    + rewrite dates_paso_final_actualizar. apply sorted_unique_increasing.
    + unfold paso_final_actualizar.
      rewrite HAB, fill_null_forward_split. apply in_elt.
  - intros s v Hs Hlt Hv Hbetween. rewrite Hcell.
    pose proof (Hearlier s Hs Hlt) as HsA.
    apply in_split in HsA as (A1 & A2 & ->).
    unfold column. rewrite map_app, map_cons, Hv.
    apply last_seen_after. apply Forall_forall. intros y Hy.
    apply in_map_iff in Hy as (x & <- & Hx).
    rewrite <- app_assoc in Hinc. cbn [app] in Hinc.
    destruct (increasing_split_dates _ _ _ Hinc) as [_ Fs].
    rewrite Forall_forall in Fs.
    apply Hbetween.
    + apply HA. apply in_or_app. right. now right.
    + apply Fs. apply in_or_app. now left.
    + apply FA. apply in_or_app. right. now right.
  - intros (s & v & Hs & Hlt & Hv). rewrite Hcell.
    apply (last_seen_Some _ v). rewrite <- Hv.
    apply in_map. now apply Hearlier.
  - intro Hnull. rewrite Hcell. apply last_seen_None.
    apply Forall_forall. intros y Hy.
    apply in_map_iff in Hy as (x & <- & Hx).
    apply Hnull; [now apply HA|now apply FA].
Qed.
End FillByDate.

(** ** The claims on sample inputs *)

(** C3. Forward fill works on each column by itself, in date order.  The
    table it fills holds the rows of the input that survive the
    deduplication (for each date, the last row the input has; every row
    when the dates of the input are all different), in strictly ascending
    order of date, and fill changes no date; each output column is the
    forward fill of that column.  For a surviving row with a null
    in a column, the output row of that date holds the value of the nearest
    earlier-dated surviving row that has one (every surviving row dated in
    between being null there), so it is no longer null once some
    earlier-dated surviving row holds a value; and it stays null when no
    earlier-dated surviving row holds a value.  Rows given out of date
    order, with two rows for one day, whose gold column reads
    [5, null, null, 8, null] in date order give [5, 5, 5, 8, 8] on days 1
    to 5; so does the same column given in date order; and a column
    [null, null] stays as it is. *)
Theorem forward_fill_correct :
  (forall (V : Type) (t : Table V),
     increasing (dates (sorted_unique t)) /\
     (forall r, In r (sorted_unique t) <-> survives t r) /\
     (forall r, survives t r -> In r t) /\
     (NoDup (dates t) -> forall r, In r t -> survives t r) /\
     dates (paso_final_actualizar t) = dates (sorted_unique t) /\
     dates (paso_final_actualizar t) = ffill None (dates (sorted_unique t)) /\
     forall c : Col,
       column c (paso_final_actualizar t) =
       ffill None (column c (sorted_unique t))) /\
  (forall (V : Type) (t : Table V) (c : Col) (r : Row V),
     survives t r -> cell c r = None ->
     exists r',
       filter (has_date (date r)) (paso_final_actualizar t) = [r'] /\
       (forall s (v : V),
          survives t s -> date_lt (date s) (date r) -> cell c s = Some v ->
          (forall x, survives t x -> date_lt (date s) (date x) ->
                     date_lt (date x) (date r) -> cell c x = None) ->
          cell c r' = Some v) /\
       ((exists s (v : V),
           survives t s /\ date_lt (date s) (date r) /\ cell c s = Some v) ->
        exists v, cell c r' = Some v) /\
       ((forall s, survives t s -> date_lt (date s) (date r) ->
                   cell c s = None) ->
        cell c r' = None)) /\
  (forall (V : Type) (t : Table V) (c : Col) (i : nat),
     nth_error (column c (sorted_unique t)) i = Some None ->
     (forall (j : nat) (v : V),
        (j < i)%nat ->
        nth_error (column c (sorted_unique t)) j = Some (Some v) ->
        (forall k, (j < k < i)%nat ->
                   nth_error (column c (sorted_unique t)) k = Some None) ->
        nth_error (column c (paso_final_actualizar t)) i = Some (Some v)) /\
     ((exists j v, (j < i)%nat /\
         nth_error (column c (sorted_unique t)) j = Some (Some v)) ->
      exists v,
        nth_error (column c (paso_final_actualizar t)) i = Some (Some v)) /\
     ((forall j, (j < i)%nat ->
                 nth_error (column c (sorted_unique t)) j = Some None) ->
      nth_error (column c (paso_final_actualizar t)) i = Some None)) /\
  (dates (paso_final_actualizar ex_desorden) =
     [Some 1; Some 2; Some 3; Some 4; Some 5] /\
   column c_price_gold (paso_final_actualizar ex_desorden) =
     [Some 5; Some 5; Some 5; Some 8; Some 8]) /\
  column c_price_gold
    (paso_final_actualizar
       (gold_table 1 [Some 5; None; None; Some 8; None])) =
    [Some 5; Some 5; Some 5; Some 8; Some 8] /\
  column c_price_gold
    (paso_final_actualizar (gold_table 1 [@None Z; None])) = [None; None].
Proof.
  split; [|split; [|split; [|split; [|split]]]].
  - intros V t. split; [|split; [|split; [|split; [|split; [|split]]]]].
    + apply sorted_unique_increasing.
    + intro r. apply sorted_unique_survives.
    + intro r. apply survives_In.
    + intros Hnd r. now apply NoDup_survives.
    + apply dates_paso_final_actualizar.
    + apply dates_fill_null_forward_ffill.
    + intro c. apply column_fill_null_forward.
  - intros V t c r Hr Hc. exact (paso_final_actualizar_by_date t c r Hr Hc).
  - intros V t c i Hi. split; [|split].
    + intros j v Hji Hj Hk.
      exact (paso_final_actualizar_fills t c i j v Hi Hji Hj Hk).
    + intro Hex. exact (paso_final_actualizar_fills_some t c i Hi Hex).
    + intro Hj. exact (paso_final_actualizar_leaves_null t c i Hi Hj).
  - split; reflexivity.
  - reflexivity.
  - reflexivity.
Qed.

(** In the rows given out of order, the row of day 3 has no gold price;
    day 1 holds 5 and the row that survives for day 2 holds none (the 9 of
    the row it displaced does not count): day 3 gets the 5 of day 1. *)
Lemma forward_fill_correct_witness :
  survives ex_desorden (gold_row 3 None) /\
  exists r',
    filter (has_date (Some 3)) (paso_final_actualizar ex_desorden) = [r'] /\
    cell c_price_gold r' = Some 5.
Proof.
  split; [reflexivity|].
  destruct (proj1 (proj2 forward_fill_correct) Z ex_desorden c_price_gold
              (gold_row 3 None) eq_refl eq_refl)
    as (r' & Hf & Hfill & _).
  exists r'. split; [exact Hf|].
  apply (Hfill (gold_row 1 (Some 5)) 5); try reflexivity.
  intros x Hx H1 H2.
  destruct x as [[d|] p1 p2 p3 g q1 q2 q3 q4]; [|discriminate H1].
  assert (d = 2) as ->.
  { unfold date_lt, date_ltb, date_leb in H1, H2. cbn [date gold_row] in H1, H2.
    apply negb_true_iff in H1, H2. apply Z.leb_gt in H1, H2. lia. }
  unfold survives in Hx. cbn in Hx. injection Hx as _ _ _ <- _ _ _ _.
  reflexivity.
Defined.


(** The Friday row of the sample table survives with its gold price. *)
Lemma paso_final_actualizar_keeps_values_witness :
  last_only (filter (has_date (Some 739555)) (ex_T ++ [ex_new])) =
    [gold_row 739555 (Some 5)] /\
  exists r',
    filter (has_date (Some 739555)) (paso_final_actualizar (ex_T ++ [ex_new]))
      = [r'] /\
    cell c_price_gold r' = Some 5.
Proof.
  split; [reflexivity|].
  exact (paso_final_actualizar_keeps_values
           (ex_T ++ [ex_new]) (gold_row 739555 (Some 5)) c_price_gold 5
           eq_refl eq_refl).
Defined.

(** Saturday 2025-11-01: five nulls, and the world untouched although any
    call to the instrument source would have raised. *)
Lemma weekend_short_circuit_witness :
  weekday (hoy_instrumentos ex_sabado) = 5 /\
  retorna_data_instrumentos ex_sabado ex_world =
    (Ok [("price_gold"%string, py_none);
         ("stock_index_dowjones"%string, py_none);
         ("stock_index_sp500"%string, py_none);
         ("rate_US10Y"%string, py_none);
         ("stock_index_ni225"%string, py_none)], ex_world).
Proof.
  split; [reflexivity|].
  exact (proj1 (weekend_short_circuit ex_sabado ex_world
                  (or_introl eq_refl))).
Defined.

(** Monday 2025-11-03 with an empty Dow Jones frame: that field alone is
    null, and the five symbols were asked for. *)
Lemma business_day_tolerance_witness :
  weekday (hoy_instrumentos ex_lunes) = 0 /\
  exists w',
    retorna_data_instrumentos ex_lunes ex_world =
      (Ok [("price_gold"%string, py_num 42);
           ("stock_index_dowjones"%string, py_none);
           ("stock_index_sp500"%string, py_num 42);
           ("rate_US10Y"%string, py_num 42);
           ("stock_index_ni225"%string, py_num 42)], w') /\
    disk w' = disk ex_world /\
    downloads (trace w') =
      downloads (trace ex_world) ++
      ["GC=F"; "^DJI"; "^GSPC"; "^TNX"; "^N225"]%string.
Proof.
  split; [reflexivity|].
  refine (proj1 (business_day_tolerance ex_lunes ex_world _ _ _)).
  - discriminate.
  - discriminate.
  - intros simbolo Hs. simpl in Hs.
    destruct Hs as [<-|[<-|[<-|[<-|[<-|[]]]]]]; discriminate.
Defined.

(** The crypto source is down on the three attempts. *)
Lemma retry_exhaustion_preserves_store_witness :
  (forall i tr, In i (seq 1 3) ->
     fst (antes_de_persistir ((fun _ => ex_sin_bitcoin) i)
            (mkWorld (disk ex_world) tr)) = Raised) /\
  fst (pipeline_principal (fun _ => ex_sin_bitcoin) ex_world) = Ok tt /\
  disk (snd (pipeline_principal (fun _ => ex_sin_bitcoin) ex_world)) =
    Parquet ex_T /\
  writes (trace (snd (pipeline_principal (fun _ => ex_sin_bitcoin) ex_world)))
    = 0%nat.
Proof.
  split; [intros i tr _; reflexivity|].
  apply (retry_exhaustion_preserves_store (fun _ => ex_sin_bitcoin) ex_world).
  intros i tr _. reflexivity.
Defined.

(** C8 as stated fails.  The file holds a table that loads; the write of
    the reconciled table is cut short; what is left on the destination is
    neither the old table nor the new one, and the next load raises, after
    the call itself and at the end of the whole run. *)
Lemma persistir_whole_file_counterexample :
  fst (cargar_data_existente ex_world) = Ok ex_T /\
  fst (persistir ex_corte (reconcile ex_T ex_new) ex_world) = Raised /\
  disk (snd (persistir ex_corte (reconcile ex_T ex_new) ex_world)) =
    Partial (reconcile ex_T ex_new) /\
  fst (cargar_data_existente
         (snd (persistir ex_corte (reconcile ex_T ex_new) ex_world))) =
    Raised /\
  fst (cargar_data_existente
         (snd (pipeline_principal (fun _ => ex_corte) ex_world))) = Raised.
Proof. repeat split. Qed.

(** A write that completes, on the sample table. *)
Lemma persistir_whole_file_witness :
  escritura ex_lunes <> write_fails_midway /\
  ((escritura ex_lunes = write_completes /\
    fst (persistir ex_lunes ex_T ex_world) = Ok tt /\
    disk (snd (persistir ex_lunes ex_T ex_world)) = Parquet ex_T /\
    fst (cargar_data_existente (snd (persistir ex_lunes ex_T ex_world))) =
      Ok ex_T) \/
   (escritura ex_lunes = write_fails_before_open /\
    fst (persistir ex_lunes ex_T ex_world) = Raised /\
    disk (snd (persistir ex_lunes ex_T ex_world)) = disk ex_world)).
Proof.
  split; [discriminate|].
  apply (persistir_whole_file ex_lunes ex_T ex_world). discriminate.
Defined.

(** * Further properties *)

(** ** Reconciliation *)

Section MoreReconcileFacts.
Context {V : Type}.
Implicit Types (p r s row old : Row V) (t T A B : Table V) (c : Col).

(** A table whose dates strictly ascend is left as it is by the sort and
    the deduplication. *)
Lemma sorted_unique_increasing_id t :
  increasing (dates t) -> sorted_unique t = t.
Proof.
  intro H. apply increasing_ext; [apply sorted_unique_increasing|exact H|].
  intro D. rewrite sorted_unique_filter.
  now apply increasing_filter_last_only.
Qed.

Lemma sorted_unique_In r t : In r (sorted_unique t) -> In r t.
Proof.
  intro H. apply unique_keep_last_In in H.
  exact (Permutation_in r (sort_by_date_perm t) H).
Qed.

Lemma date_le_refl (a : option Z) : date_le a a.
Proof. date_cases. Qed.

Lemma increasing_snoc (ds : list (option Z)) (d : option Z) :
  increasing ds -> Forall (fun x => date_lt x d) ds -> increasing (ds ++ [d]).
Proof.
  unfold increasing. induction 1 as [|x ds Hs IH Hx]; intro Hd; simpl.
  - repeat constructor.
  - inversion Hd as [|? ? Hxd Hds]; subst. constructor; [now apply IH|].
    apply Forall_app. split; [exact Hx|]. now constructor.
Qed.

(** X1. [paso_final_actualizar] is idempotent: applied to a table it has
    returned, it returns that table. *)
Theorem paso_final_actualizar_idempotent t :
  paso_final_actualizar (paso_final_actualizar t) = paso_final_actualizar t.
Proof.
  unfold paso_final_actualizar at 1.
  rewrite sorted_unique_increasing_id.
  - unfold paso_final_actualizar, fill_null_forward. apply fill_from_idem.
  - rewrite dates_paso_final_actualizar. apply sorted_unique_increasing.
Qed.

(** *** No gap below a value *)

Lemma ffill_seeded {X : Type} (x : X) (col : list (option X)) (j : nat) :
  (j < List.length col)%nat ->
  exists y, nth_error (ffill (Some x) col) j = Some (Some y).
Proof.
  revert x j. induction col as [|[z|] col IH]; intros x j Hj; simpl in Hj;
    [lia| |]; destruct j as [|j]; simpl; eauto; apply IH; lia.
Qed.

Lemma ffill_no_gap {X : Type} (seen : option X) (col : list (option X))
    (i j : nat) (x : X) :
  nth_error (ffill seen col) i = Some (Some x) ->
  (i <= j)%nat -> (j < List.length col)%nat ->
  exists y, nth_error (ffill seen col) j = Some (Some y).
Proof.
  revert seen i j. induction col as [|z col IH]; intros seen i j Hi Hij Hj;
    simpl in Hj; [lia|].
  destruct i as [|i]; simpl in Hi.
  - destruct j as [|j]; simpl; [eauto|].
    injection Hi as Hi. rewrite Hi. apply ffill_seeded. lia.
  - destruct j as [|j]; [lia|]. simpl. apply (IH _ i); [exact Hi|lia|lia].
Qed.

(** X2. The returned table has no gap below a value: once a row holds a
    value in a column, every later row holds one in that column. *)
Theorem paso_final_actualizar_no_gap t c (i j : nat) (v : V) :
  nth_error (column c (paso_final_actualizar t)) i = Some (Some v) ->
  (i <= j)%nat ->
  (j < List.length (paso_final_actualizar t))%nat ->
  exists v', nth_error (column c (paso_final_actualizar t)) j = Some (Some v').
Proof.
  unfold paso_final_actualizar. rewrite column_fill_null_forward.
  intros Hi Hij Hj. apply (ffill_no_gap _ _ i j v Hi Hij).
  unfold fill_null_forward in Hj. rewrite fill_from_length in Hj.
  unfold column. now rewrite length_map.
Qed.

(** *** Where the values of the output come from *)

Lemma fill_from_origin p t c (i : nat) r' (v : V) :
  nth_error (fill_from p t) i = Some r' ->
  cell c r' = Some v ->
  cell c p = Some v \/
  exists j r, (j <= i)%nat /\ nth_error t j = Some r /\ cell c r = Some v.
Proof.
  revert p i. induction t as [|x t IH]; intros p i Hi Hc.
  - now destruct i.
  - destruct i as [|i]; simpl in Hi.
    + injection Hi as <-. rewrite cell_fill_row in Hc.
      destruct (cell c x) as [y|] eqn:Ex.
      * right. exists 0%nat, x. simpl in Hc. repeat split; [lia|congruence].
      * left. exact Hc.
    + destruct (IH _ _ Hi Hc) as [Hp|(j & r & Hj & Hr & Hv)].
      * rewrite cell_fill_row in Hp. destruct (cell c x) as [y|] eqn:Ex.
        -- right. exists 0%nat, x. simpl in Hp.
           repeat split; [lia|congruence].
        -- left. exact Hp.
      * right. exists (S j), r. repeat split; [lia|exact Hr|exact Hv].
Qed.

Lemma nondecreasing_nth (ds : list (option Z)) (j i : nat) (a b : option Z) :
  nondecreasing ds -> (j <= i)%nat ->
  nth_error ds j = Some a -> nth_error ds i = Some b -> date_le a b.
Proof.
  unfold nondecreasing. intro H. revert j i.
  induction H as [|d ds Hs IH Hd]; intros j i Hji Hj Hi.
  - now destruct j.
  - destruct j as [|j]; destruct i as [|i]; simpl in *; try lia.
    + injection Hj as <-. injection Hi as <-. clear. date_cases.
    + injection Hj as <-. rewrite Forall_forall in Hd. apply Hd.
      exact (nth_error_In _ _ Hi).
    + apply (IH j i); [lia|exact Hj|exact Hi].
Qed.

(** X3. Forward fill invents nothing: a value in the returned table stands,
    in the same column, in a row of the input whose date is not later. *)
Theorem paso_final_actualizar_origin t c r' (v : V) :
  In r' (paso_final_actualizar t) ->
  cell c r' = Some v ->
  exists r, In r t /\ cell c r = Some v /\ date_le (date r) (date r').
Proof.
  intros Hin Hc. apply In_nth_error in Hin as [i Hi].
  pose proof Hi as Hi'. unfold paso_final_actualizar, fill_null_forward in Hi'.
  destruct (fill_from_origin _ _ c i r' v Hi' Hc)
    as [Hp|(j & r & Hj & Hr & Hv)].
  - now rewrite cell_null_row in Hp.
  - exists r. split; [|split; [exact Hv|]].
    + apply sorted_unique_In. exact (nth_error_In _ _ Hr).
    + apply (nondecreasing_nth (dates (sorted_unique t)) j i).
      * apply increasing_nondecreasing, sorted_unique_increasing.
      * exact Hj.
      * unfold dates. now rewrite nth_error_map, Hr.
      * rewrite <- dates_paso_final_actualizar. unfold dates.
        now rewrite nth_error_map, Hi.
Qed.
(** *** The daily append and the rerun of the same day *)

(** The rows of [t] that are not dated [D]. *)
Lemma filter_other_date D D' t :
  D' <> D ->
  filter (has_date D') (filter (fun s => negb (has_date D s)) t) =
  filter (has_date D') t.
Proof.
  intro Hne. induction t as [|s t IH]; [reflexivity|].
  simpl. destruct (has_date D s) eqn:Es; simpl.
  - destruct (has_date D' s) eqn:Es'; [|exact IH].
    apply has_date_eq in Es, Es'. congruence.
  - now rewrite IH.
Qed.

Lemma filter_same_date_nil D t :
  filter (has_date D) (filter (fun s => negb (has_date D s)) t) = [].
Proof.
  apply filter_has_date_nil. intros s Hs E. apply filter_In in Hs as [_ Hs].
  apply has_date_eq in E. now rewrite E in Hs.
Qed.

(** When no row of [T] is dated after the appended row, the sorted,
    deduplicated table is the one of the rows of the other dates, and the
    appended row below it. *)
Lemma sorted_unique_latest T row :
  Forall (fun s => date_le (date s) (date row)) T ->
  sorted_unique (T ++ [row]) =
  sorted_unique (filter (fun s => negb (has_date (date row) s)) T) ++ [row].
Proof.
  intro H. rewrite Forall_forall in H.
  apply increasing_ext.
  - apply sorted_unique_increasing.
  - unfold dates. rewrite map_app. apply increasing_snoc.
    + apply sorted_unique_increasing.
    + apply Forall_forall. intros d Hd.
      apply in_map_iff in Hd as (s & <- & Hs).
      apply sorted_unique_In, filter_In in Hs as [Hs Hne].
      apply date_le_neq_lt; [now apply H|].
      rewrite date_eqb_sym. apply negb_true_iff in Hne. exact Hne.
  - intro D. rewrite sorted_unique_filter, !filter_app, sorted_unique_filter.
    simpl. destruct (has_date D row) eqn:E.
    + apply has_date_eq in E. subst D.
      now rewrite filter_same_date_nil, last_only_app_one.
    + rewrite !app_nil_r, filter_other_date; [reflexivity|].
      intros ->. now rewrite has_date_self in E.
Qed.

Lemma filter_all {X : Type} (f : X -> bool) (l : list X) :
  (forall x, In x l -> f x = true) -> filter f l = l.
Proof.
  induction l as [|x l IH]; intro H; [reflexivity|].
  simpl. rewrite (H x (or_introl eq_refl)). f_equal.
  apply IH. intros y Hy. apply H. now right.
Qed.

(** What reconciliation returns in that case. *)
Lemma reconcile_latest T row :
  Forall (fun s => date_le (date s) (date row)) T ->
  let A := sorted_unique (filter (fun s => negb (has_date (date row) s)) T) in
  reconcile T row =
    fill_null_forward A ++ [fill_row (last (fill_null_forward A) null_row) row]
  /\ date (fill_row (last (fill_null_forward A) null_row) row) = date row
  /\ dates (fill_null_forward A) = dates A
  /\ Forall (fun d => date_lt d (date row)) (dates A).
Proof.
  intros H A. pose proof (sorted_unique_latest T row H) as HS. fold A in HS.
  pose proof (sorted_unique_increasing (T ++ [row])) as Hinc.
  rewrite HS in Hinc.
  destruct (fill_null_forward_split_dates A row [] Hinc) as (Hrow & HA & _).
  destruct (increasing_split_dates A row [] Hinc) as [FA _].
  repeat split; auto.
  - unfold reconcile, concat_vertical, paso_final_actualizar.
    now rewrite HS, fill_null_forward_split.
  - apply Forall_forall. intros d Hd.
    apply in_map_iff in Hd as (s & <- & Hs).
    rewrite Forall_forall in FA. now apply FA.
Qed.

(** X4. The daily append.  When every row of the table is dated before the
    new row, reconciliation returns the reconciled table with the new row
    below it, its nulls filled from the last row; on a table that
    [paso_final_actualizar] leaves unchanged, such as one it has returned,
    the rows already there are not touched. *)
Theorem reconcile_append T row :
  Forall (fun s => date_lt (date s) (date row)) T ->
  reconcile T row =
    paso_final_actualizar T ++
    [fill_row (last (paso_final_actualizar T) null_row) row] /\
  (paso_final_actualizar T = T ->
   reconcile T row = T ++ [fill_row (last T null_row) row]).
Proof.
  intro H.
  assert (reconcile T row =
            paso_final_actualizar T ++
            [fill_row (last (paso_final_actualizar T) null_row) row]) as HR.
  { assert (Forall (fun s => date_le (date s) (date row)) T) as Hle
      by (eapply Forall_impl; [|exact H]; intros s Hs; now apply date_lt_le).
    destruct (reconcile_latest T row Hle) as (-> & _).
    rewrite filter_all; [reflexivity|].
    intros s Hs. rewrite Forall_forall in H.
    unfold has_date. rewrite date_eqb_sym.
    now rewrite (date_lt_neqb _ _ (H s Hs)). }
  split; [exact HR|]. intro Hid. now rewrite HR, Hid.
Qed.

(** X5. The last write of a day wins.  When no row of the table is dated
    after [D], reconciling with a row for [D] and then with another row for
    [D] returns what reconciling with the second row alone returns. *)
Theorem reconcile_last_write_wins T old row :
  date old = date row ->
  Forall (fun s => date_le (date s) (date row)) T ->
  reconcile (reconcile T old) row = reconcile T row.
Proof.
  intros Hd H.
  assert (Forall (fun s => date_le (date s) (date old)) T) as H'
    by now rewrite Hd.
  destruct (reconcile_latest T row H) as (HR & _ & _ & _).
  destruct (reconcile_latest T old H') as (HO & Hold & HA & FA).
  rewrite Hd in HO, Hold, HA, FA.
  set (A := sorted_unique
              (filter (fun s => negb (has_date (date row) s)) T)) in *.
  set (old' := fill_row (last (fill_null_forward A) null_row) old) in *.
  assert (forall s, In s (fill_null_forward A) ->
                    date_lt (date s) (date row)) as Hlt.
  { intros s Hs. rewrite Forall_forall in FA. apply FA.
    rewrite <- HA. now apply in_map. }
  assert (Forall (fun s => date_le (date s) (date row))
                 (fill_null_forward A ++ [old'])) as Hle.
  { apply Forall_app. split.
    - apply Forall_forall. intros s Hs. apply date_lt_le. now apply Hlt.
    - constructor; [|constructor]. rewrite Hold. apply date_le_refl. }
  assert (filter (fun s => negb (has_date (date row) s))
                 (fill_null_forward A ++ [old']) = fill_null_forward A) as Hf.
  { rewrite filter_app, filter_all.
    - simpl. replace (has_date (date row) old') with true; [apply app_nil_r|].
      unfold has_date. rewrite Hold. symmetry. apply date_eqb_refl.
    - intros s Hs. unfold has_date. rewrite date_eqb_sym.
      now rewrite (date_lt_neqb _ _ (Hlt s Hs)). }
  rewrite HO.
  destruct (reconcile_latest _ row Hle) as (-> & _).
  rewrite Hf, HR. fold A.
  rewrite sorted_unique_increasing_id
    by (rewrite HA; apply sorted_unique_increasing).
  assert (fill_null_forward (fill_null_forward A) = fill_null_forward A)
    as -> by (unfold fill_null_forward; apply fill_from_idem).
  reflexivity.
Qed.
End MoreReconcileFacts.

(** ** The fetch functions *)

Section MoreFetchFacts.
Context {V : Type}.
Implicit Types (e : entorno V) (w : world V) (d hoy : dict V)
  (f : @yf_frame V).

(** A call that raises ends the loop at once. *)
Lemma descargar_raises e instrumento simbolo resto d w :
  yahoo e simbolo = None ->
  descargar e ((instrumento, simbolo) :: resto) d w =
  (Raised, mkWorld (disk w) (trace w ++ [ev_yf_download simbolo])).
Proof.
  intro H. cbn [descargar]. unfold bind, yf_download, emit, bind.
  now rewrite H.
Qed.

Lemma descargar_stops e pre instrumento simbolo post d w :
  (forall s, In s (map snd pre) -> yahoo e s <> None) ->
  yahoo e simbolo = None ->
  exists w',
    descargar e (pre ++ (instrumento, simbolo) :: post) d w = (Raised, w') /\
    disk w' = disk w /\
    downloads (trace w') =
      downloads (trace w) ++ map snd pre ++ [simbolo].
Proof.
  intros Hpre Hs. revert d w.
  induction pre as [|[i s] pre IH]; intros d w.
  - simpl app. rewrite descargar_raises by exact Hs.
    eexists. split; [reflexivity|]. split; [reflexivity|].
    cbn [trace]. now rewrite downloads_app.
  - destruct (yahoo e s) as [f|] eqn:Ef.
    + simpl app. rewrite (descargar_step _ _ _ _ _ _ _ Ef).
      destruct (IH (fun x Hx => Hpre x (or_intror Hx))
                  (dict_set i (primer_valor f) d)
                  (mkWorld (disk w)
                           (trace w ++ [ev_yf_download s; ev_sleep 15])))
        as (w' & -> & Hd & Ht).
      exists w'. split; [reflexivity|]. split; [exact Hd|].
      rewrite Ht. cbn [trace]. rewrite downloads_app. cbn.
      now rewrite <- app_assoc.
    + exfalso. apply (Hpre s); [now left|exact Ef].
Qed.

(** X6. A call to the instrument source that raises is not tolerated: on
    a business day, when the calls for the tickers before [simbolo] return
    and the call for [simbolo] raises, [retorna_data_instrumentos] raises
    after that call, the later tickers are not asked for, and
    [obtener_data_hoy] raises too: no row is built. *)
Theorem instrument_exception_aborts e w pre instrumento simbolo post :
  weekday (hoy_instrumentos e) <> 5 ->
  weekday (hoy_instrumentos e) <> 6 ->
  tickers = pre ++ (instrumento, simbolo) :: post ->
  (forall s, In s (map snd pre) -> yahoo e s <> None) ->
  yahoo e simbolo = None ->
  (exists w',
     retorna_data_instrumentos e w = (Raised, w') /\
     disk w' = disk w /\
     downloads (trace w') =
       downloads (trace w) ++ map snd pre ++ [simbolo]) /\
  fst (obtener_data_hoy e w) = Raised.
Proof.
  intros H5 H6 Ht Hpre Hs.
  assert (forall w0, exists w',
            retorna_data_instrumentos e w0 = (Raised, w') /\
            disk w' = disk w0 /\
            downloads (trace w') =
              downloads (trace w0) ++ map snd pre ++ [simbolo]) as Hi.
  { intro w0. unfold retorna_data_instrumentos.
    rewrite (business_day_check _ H5 H6), Ht.
    now apply descargar_stops. }
  split; [apply Hi|].
  unfold obtener_data_hoy, bind.
  destruct (retorna_data_bitcoin e w) as [[b|] w1]; [|reflexivity].
  destruct (Hi w1) as (w' & -> & _). reflexivity.
Qed.

(** X7. The crypto source is asked first and its failure is fatal: when
    it raises, [obtener_data_hoy] raises with that one call made and no
    call to the instrument source. *)
Theorem crypto_failure_aborts e w :
  coingecko e = None ->
  obtener_data_hoy e w =
    (Raised, mkWorld (disk w) (trace w ++ [ev_get_coingecko])) /\
  downloads (trace (snd (obtener_data_hoy e w))) = downloads (trace w).
Proof.
  intro H.
  assert (obtener_data_hoy e w =
            (Raised, mkWorld (disk w) (trace w ++ [ev_get_coingecko]))) as ->
    by (unfold obtener_data_hoy, bind, retorna_data_bitcoin, bind, emit;
        now rewrite H).
  split; [reflexivity|]. cbn [snd trace]. rewrite downloads_app.
  apply app_nil_r.
Qed.

(** *** The dictionary of the day has the columns of the table *)

Lemma as_num_primer_valor f :
  exists g, as_num (primer_valor f) = Some g.
Proof. destruct f as [|[|v fila] filas]; simpl; eauto. Qed.

Lemma descargar_tickers_Ok e w d w' :
  descargar e tickers [] w = (Ok d, w') ->
  exists f1 f2 f3 f4 f5,
    d = [("price_gold"%string, primer_valor f1);
         ("stock_index_dowjones"%string, primer_valor f2);
         ("stock_index_sp500"%string, primer_valor f3);
         ("rate_US10Y"%string, primer_valor f4);
         ("stock_index_ni225"%string, primer_valor f5)] /\
    w' = mkWorld (disk w)
           (trace w ++
            [ev_yf_download "GC=F"; ev_sleep 15;
             ev_yf_download "^DJI"; ev_sleep 15;
             ev_yf_download "^GSPC"; ev_sleep 15;
             ev_yf_download "^TNX"; ev_sleep 15;
             ev_yf_download "^N225"; ev_sleep 15]).
Proof.
  unfold tickers. intro H.
  destruct (yahoo e "GC=F") as [f1|] eqn:E1;
    [rewrite (descargar_step _ _ _ _ _ _ _ E1) in H
    |now rewrite descargar_raises in H].
  destruct (yahoo e "^DJI") as [f2|] eqn:E2;
    [rewrite (descargar_step _ _ _ _ _ _ _ E2) in H
    |now rewrite descargar_raises in H].
  destruct (yahoo e "^GSPC") as [f3|] eqn:E3;
    [rewrite (descargar_step _ _ _ _ _ _ _ E3) in H
    |now rewrite descargar_raises in H].
  destruct (yahoo e "^TNX") as [f4|] eqn:E4;
    [rewrite (descargar_step _ _ _ _ _ _ _ E4) in H
    |now rewrite descargar_raises in H].
  destruct (yahoo e "^N225") as [f5|] eqn:E5;
    [rewrite (descargar_step _ _ _ _ _ _ _ E5) in H
    |now rewrite descargar_raises in H].
  exists f1, f2, f3, f4, f5. cbn in H. unfold ret in H.
  injection H as <- <-. split; [reflexivity|].
  cbn [disk trace]. now rewrite <- !app_assoc.
Qed.

Lemma retorna_data_instrumentos_Ok e w d w' :
  retorna_data_instrumentos e w = (Ok d, w') ->
  exists x1 x2 x3 x4 x5 g1 g2 g3 g4 g5,
    d = [("price_gold"%string, x1);
         ("stock_index_dowjones"%string, x2);
         ("stock_index_sp500"%string, x3);
         ("rate_US10Y"%string, x4);
         ("stock_index_ni225"%string, x5)] /\
    as_num x1 = Some g1 /\ as_num x2 = Some g2 /\ as_num x3 = Some g3 /\
    as_num x4 = Some g4 /\ as_num x5 = Some g5.
Proof.
  unfold retorna_data_instrumentos.
  destruct (existsb _ _); intro H.
  - unfold ret in H. injection H as <- _.
    exists py_none, py_none, py_none, py_none, py_none.
    exists None, None, None, None, None. now repeat split.
  - apply descargar_tickers_Ok in H as (f1 & f2 & f3 & f4 & f5 & -> & _).
    destruct (as_num_primer_valor f1) as [g1 G1],
             (as_num_primer_valor f2) as [g2 G2],
             (as_num_primer_valor f3) as [g3 G3],
             (as_num_primer_valor f4) as [g4 G4],
             (as_num_primer_valor f5) as [g5 G5].
    exists (primer_valor f1), (primer_valor f2), (primer_valor f3),
      (primer_valor f4), (primer_valor f5), g1, g2, g3, g4, g5.
    now repeat split.
Qed.

(** X8. Whenever [obtener_data_hoy] returns, its dictionary has the nine
    keys of the columns of the table, each once and in this order: [date],
    the three crypto fields, then the five instruments in the order of
    [tickers], on a weekend as on a business day; and its date is the one
    that [retorna_data_bitcoin] read from the clock.  Nothing is said of
    the types of the values. *)
Theorem obtener_data_hoy_keys e w hoy w' :
  obtener_data_hoy e w = (Ok hoy, w') ->
  map fst hoy =
    ["date"; "price"; "total_volume"; "market_cap"; "price_gold";
     "stock_index_dowjones"; "stock_index_sp500"; "rate_US10Y";
     "stock_index_ni225"]%string /\
  dict_get "date" hoy = Some (py_date (hoy_bitcoin e)).
Proof.
  unfold obtener_data_hoy, bind, retorna_data_bitcoin, bind, emit.
  destruct (coingecko e) as [[[p vol] cap]|]; [|discriminate].
  unfold ret at 1.
  destruct (retorna_data_instrumentos e _) as [[d|] w1] eqn:Ed;
    [|discriminate].
  apply retorna_data_instrumentos_Ok in Ed
    as (x1 & x2 & x3 & x4 & x5 & g1 & g2 & g3 & g4 & g5 & -> & _).
  unfold ret. intro H. injection H as <- _.
  split; reflexivity.
Qed.

(** X9. The pacing of a business day: when no call raises, the function
    makes the five downloads in the order of [tickers], sleeps fifteen
    seconds after each of them, the last one included, and does nothing
    else. *)
Theorem business_day_pacing e w :
  weekday (hoy_instrumentos e) <> 5 ->
  weekday (hoy_instrumentos e) <> 6 ->
  (forall s, In s (map snd tickers) -> yahoo e s <> None) ->
  snd (retorna_data_instrumentos e w) =
    mkWorld (disk w)
      (trace w ++
       [ev_yf_download "GC=F"; ev_sleep 15;
        ev_yf_download "^DJI"; ev_sleep 15;
        ev_yf_download "^GSPC"; ev_sleep 15;
        ev_yf_download "^TNX"; ev_sleep 15;
        ev_yf_download "^N225"; ev_sleep 15]).
Proof.
  intros H5 H6 Hy. unfold retorna_data_instrumentos.
  rewrite (business_day_check _ H5 H6).
  assert (exists d w', descargar e tickers [] w = (Ok d, w')) as (d & w' & Hr).
  { assert (forall s, In s (map snd (@tickers)) ->
                      exists f, yahoo e s = Some f) as Hf.
    { intros s Hs. specialize (Hy s Hs).
      destruct (yahoo e s) as [f|]; [now exists f|congruence]. }
    unfold tickers.
    destruct (Hf "GC=F"%string) as [f1 E1]; [simpl; tauto|].
    destruct (Hf "^DJI"%string) as [f2 E2]; [simpl; tauto|].
    destruct (Hf "^GSPC"%string) as [f3 E3]; [simpl; tauto|].
    destruct (Hf "^TNX"%string) as [f4 E4]; [simpl; tauto|].
    destruct (Hf "^N225"%string) as [f5 E5]; [simpl; tauto|].
    rewrite (descargar_step _ _ _ _ _ _ _ E1).
    rewrite (descargar_step _ _ _ _ _ _ _ E2).
    rewrite (descargar_step _ _ _ _ _ _ _ E3).
    rewrite (descargar_step _ _ _ _ _ _ _ E4).
    rewrite (descargar_step _ _ _ _ _ _ _ E5).
    eexists. eexists. reflexivity. }
  rewrite Hr. cbn [snd].
  now apply descargar_tickers_Ok in Hr as (_ & _ & _ & _ & _ & _ & ->).
Qed.
End MoreFetchFacts.

(** ** The retry loop *)

Section SilentFacts.
Context {V : Type}.
Variable p : @event -> bool.

Lemma cuenta_app (tr1 tr2 : list (@event)) :
  cuenta p (tr1 ++ tr2) = (cuenta p tr1 + cuenta p tr2)%nat.
Proof. unfold cuenta. now rewrite filter_app, length_app. Qed.

Lemma silent_ret {A : Type} (a : A) : silent p (@ret V A a).
Proof. now intro w. Qed.

Lemma silent_raise {A : Type} : silent p (@raise V A).
Proof. now intro w. Qed.

Lemma silent_bind {A B : Type} (m : @M V A) (f : A -> @M V B) :
  silent p m -> (forall a, silent p (f a)) -> silent p (bind m f).
Proof.
  intros Hm Hf w. unfold bind. specialize (Hm w).
  destruct (m w) as [[a|] w']; simpl in *; [|exact Hm].
  now rewrite (Hf a w').
Qed.

Lemma silent_emit (ev : event) : p ev = false -> silent p (@emit V ev).
Proof.
  intros H w. unfold emit. simpl. rewrite cuenta_app.
  unfold cuenta at 2. simpl. rewrite H. simpl. lia.
Qed.

Lemma silent_set_disk (f : file V) : silent p (set_disk f).
Proof. now intro w. Qed.

Hypothesis p_coingecko : p ev_get_coingecko = false.
Hypothesis p_download : forall s, p (ev_yf_download s) = false.
Hypothesis p_pause : p (ev_sleep 15) = false.
Hypothesis p_write : p ev_write_parquet = false.

Ltac hush :=
  repeat first
    [ apply silent_ret | apply silent_raise | apply silent_set_disk
    | apply silent_emit; solve [auto]
    | apply silent_bind; [|intro] ].

Lemma silent_descargar (e : entorno V) pendientes (d : dict V) :
  silent p (descargar e pendientes d).
Proof.
  revert d. induction pendientes as [|[instrumento simbolo] resto IH];
    intro d; cbn [descargar]; [hush|].
  apply silent_bind; [|intro f].
  - unfold yf_download. apply silent_bind; [hush|intro].
    destruct (yahoo e simbolo); hush.
  - apply silent_bind; [|intro x].
    + destruct (negb (empty f)); [|hush].
      unfold iloc_0_0. destruct f as [|[|v fila] filas]; hush.
    + apply silent_bind; [hush|intro]. apply IH.
Qed.

Lemma silent_obtener_data_hoy (e : entorno V) :
  silent p (obtener_data_hoy e).
Proof.
  unfold obtener_data_hoy. apply silent_bind; [|intro b].
  - unfold retorna_data_bitcoin. apply silent_bind; [hush|intro].
    destruct (coingecko e) as [[[x y] z]|]; hush.
  - apply silent_bind; [|intro; hush].
    unfold retorna_data_instrumentos.
    destruct (existsb _ _); [hush|apply silent_descargar].
Qed.

Lemma silent_persistir (e : entorno V) (df : Table V) :
  silent p (persistir e df).
Proof.
  unfold persistir. apply silent_bind; [hush|intro].
  destruct (escritura e); hush.
Qed.

Lemma cuenta_bind {A B : Type} (m : @M V A) (f : A -> @M V B) (w : world V) :
  (forall a, silent p (f a)) ->
  cuenta p (trace (snd (bind m f w))) = cuenta p (trace (snd (m w))).
Proof.
  intro H. unfold bind. destruct (m w) as [[a|] w1]; [apply H|reflexivity].
Qed.

Lemma cargar_data_existente_world (w : world V) :
  snd (cargar_data_existente w) =
  mkWorld (disk w) (trace w ++ [ev_read_parquet]).
Proof.
  unfold cargar_data_existente, bind, emit, get_disk. cbn [fst snd disk].
  now destruct (disk w).
Qed.

(** What an attempt adds to the count: the one load. *)
Lemma intento_pipeline_cuenta (e : entorno V) (w : world V) :
  cuenta p (trace (snd (intento_pipeline e w))) =
  (cuenta p (trace w) + cuenta p [ev_read_parquet])%nat.
Proof.
  unfold intento_pipeline. rewrite cuenta_bind.
  - rewrite cargar_data_existente_world. apply cuenta_app.
  - intro df.
    apply silent_bind; [apply silent_obtener_data_hoy|intro hoy].
    apply silent_bind; [|intro df'].
    + unfold concatenar. destruct (row_of_dict hoy); hush.
    + apply silent_bind; [unfold actualizar; hush|intro].
      apply silent_persistir.
Qed.
End SilentFacts.

Section MorePipelineFacts.
Context {V : Type}.
Implicit Types (e : entorno V) (w : world V) (df T : Table V)
  (env : nat -> entorno V).

Lemma world_eta w : mkWorld (disk w) (trace w) = w.
Proof. now destruct w. Qed.

(** *** The run never raises *)

Lemma intentos_never_raises env pendientes w :
  fst (intentos env pendientes w) = Ok tt.
Proof.
  revert w. induction pendientes as [|i resto IH]; intro w; [reflexivity|].
  cbn [intentos]. unfold try_except.
  destruct (intento_pipeline (env i) w) as [[[]|] w1]; [reflexivity|].
  unfold bind, emit. apply IH.
Qed.

(** X10. [pipeline_principal] never raises: whatever the sources and the
    disk do, the run returns normally. *)
Theorem pipeline_principal_never_raises env w :
  fst (pipeline_principal env w) = Ok tt.
Proof. apply intentos_never_raises. Qed.

(** *** Loads, writes and pauses of a run *)

Lemma persistir_trace e df w :
  trace (snd (persistir e df w)) = trace w ++ [ev_write_parquet].
Proof.
  unfold persistir, bind, emit, set_disk, raise.
  now destruct (escritura e).
Qed.

Lemma intento_pipeline_writes e w :
  exists k : nat,
    (k <= 1)%nat /\
    writes (trace (snd (intento_pipeline e w))) = (writes (trace w) + k)%nat.
Proof.
  rewrite intento_pipeline_stages. unfold bind.
  destruct (preserves_antes_de_persistir e w) as [_ Hw].
  destruct (antes_de_persistir e w) as [[df|] w1]; cbn [snd] in *.
  - exists 1%nat. split; [lia|].
    now rewrite persistir_trace, writes_app, Hw.
  - exists 0%nat. split; [lia|]. rewrite Hw. lia.
Qed.

Lemma intentos_counts env pendientes w :
  exists r b wr : nat,
    cuenta is_read (trace (snd (intentos env pendientes w))) =
      (cuenta is_read (trace w) + r)%nat /\
    cuenta is_backoff (trace (snd (intentos env pendientes w))) =
      (cuenta is_backoff (trace w) + b)%nat /\
    writes (trace (snd (intentos env pendientes w))) =
      (writes (trace w) + wr)%nat /\
    (wr <= r)%nat /\
    ((r = List.length pendientes /\ b = r) \/
     (1 <= r <= List.length pendientes /\ S b = r))%nat.
Proof.
  revert w. induction pendientes as [|i resto IH]; intro w.
  - exists 0%nat, 0%nat, 0%nat. cbn. repeat split; lia.
  - cbn [intentos]. unfold try_except.
    pose proof (intento_pipeline_cuenta is_read eq_refl (fun _ => eq_refl)
                  eq_refl eq_refl (env i) w) as Hr.
    pose proof (intento_pipeline_cuenta is_backoff eq_refl (fun _ => eq_refl)
                  eq_refl eq_refl (env i) w) as Hb.
    destruct (intento_pipeline_writes (env i) w) as (k & Hk & Hw).
    destruct (intento_pipeline (env i) w) as [[[]|] w1]; cbn [snd] in *.
    + exists 1%nat, 0%nat, k.
      cbn in Hr, Hb. cbn [List.length]. repeat split; lia.
    + unfold bind, emit. cbn [fst snd disk trace].
      destruct (IH (mkWorld (disk w1) (trace w1 ++ [ev_sleep 60])))
        as (r & b & wr & Hr' & Hb' & Hw' & Hle & Hcase).
      cbn [trace] in Hr', Hb', Hw'.
      rewrite cuenta_app in Hr', Hb'. rewrite writes_app in Hw'.
      cbn in Hr, Hb, Hr', Hb', Hw'.
      exists (S r), (S b), (k + wr)%nat.
      cbn [List.length]. repeat split; lia.
Qed.
(** X11. The retry is bounded.  A run loads the file between one and three
    times, once per attempt; it calls [write_parquet] at most once per
    attempt; and it pauses sixty seconds after each failed attempt and
    only then: either the last attempt made succeeded, and the pauses are
    one fewer than the loads, or the three attempts failed, and there are
    three pauses. *)
Theorem pipeline_principal_bounded env w :
  exists r b wr : nat,
    cuenta is_read (trace (snd (pipeline_principal env w))) =
      (cuenta is_read (trace w) + r)%nat /\
    cuenta is_backoff (trace (snd (pipeline_principal env w))) =
      (cuenta is_backoff (trace w) + b)%nat /\
    writes (trace (snd (pipeline_principal env w))) =
      (writes (trace w) + wr)%nat /\
    (1 <= r <= 3)%nat /\ (wr <= r)%nat /\
    ((r = 3 /\ b = 3) \/ S b = r)%nat.
Proof.
  destruct (intentos_counts env (seq 1 3) w)
    as (r & b & wr & Hr & Hb & Hw & Hle & Hcase).
  exists r, b, wr. cbn [List.length seq] in Hcase.
  unfold pipeline_principal. repeat split; try assumption; lia.
Qed.

(** *** A file that cannot be loaded *)

Lemma intento_pipeline_unreadable e w :
  unreadable (disk w) ->
  intento_pipeline e w =
  (Raised, mkWorld (disk w) (trace w ++ [ev_read_parquet])).
Proof.
  intro H. unfold intento_pipeline, bind, cargar_data_existente, bind, emit,
    get_disk. cbn [fst snd disk trace].
  destruct (disk w); [reflexivity|destruct H|reflexivity].
Qed.

(** X12. A missing or damaged file is never created or repaired.  When the
    file cannot be loaded, the run consists of three loads that fail, each
    followed by the pause: no source is called, nothing is written, the
    file is left as it is, and the run returns normally. *)
Theorem pipeline_principal_unreadable env w :
  unreadable (disk w) ->
  pipeline_principal env w =
  (Ok tt,
   mkWorld (disk w)
     (trace w ++
      [ev_read_parquet; ev_sleep 60; ev_read_parquet; ev_sleep 60;
       ev_read_parquet; ev_sleep 60])).
Proof.
  intro H. unfold pipeline_principal. cbn [seq intentos].
  unfold try_except, bind, emit.
  rewrite (intento_pipeline_unreadable _ w H). cbn [fst snd disk trace].
  rewrite intento_pipeline_unreadable by exact H. cbn [fst snd disk trace].
  rewrite intento_pipeline_unreadable by exact H. cbn [fst snd disk trace].
  unfold ret. now rewrite <- !app_assoc.
Qed.

Lemma intentos_unreadable env pendientes w :
  unreadable (disk w) ->
  disk (snd (intentos env pendientes w)) = disk w.
Proof.
  revert w. induction pendientes as [|i resto IH]; intros w H;
    [reflexivity|].
  cbn [intentos]. unfold try_except, bind, emit.
  rewrite (intento_pipeline_unreadable _ w H). cbn [fst snd disk trace].
  now rewrite IH.
Qed.

(** *** The first attempt that does not fail cleanly decides *)

(** Attempts that raise and leave the file as it was are passed over. *)
Lemma intentos_skip env pre pendientes w :
  (forall k, In k pre -> attempt_ends (env k) (disk w) Raised (disk w)) ->
  exists w1,
    intentos env (pre ++ pendientes) w = intentos env pendientes w1 /\
    disk w1 = disk w.
Proof.
  revert w. induction pre as [|k pre IH]; intros w H.
  - now exists w.
  - destruct (H k (or_introl eq_refl) (trace w)) as [Hr Hd].
    rewrite world_eta in Hr, Hd.
    cbn [app intentos]. unfold try_except.
    destruct (intento_pipeline (env k) w) as [[[]|] w1]; cbn [fst snd] in *;
      [discriminate|].
    unfold bind, emit.
    destruct (IH (mkWorld (disk w1) (trace w1 ++ [ev_sleep 60])))
      as (w2 & -> & Hd2).
    + intros j Hj. cbn [disk]. rewrite Hd. apply H. now right.
    + exists w2. split; [reflexivity|]. cbn [disk] in Hd2. congruence.
Qed.

(** X13. The run stores what its first successful attempt computes.  When
    the attempts before attempt [i] raise and leave the file as it was, and
    attempt [i] succeeds and leaves the file [X], the run ends with the
    file [X]: the later attempts do not take place. *)
Theorem pipeline_principal_first_success env w pre i post X :
  seq 1 3 = pre ++ i :: post ->
  (forall k, In k pre -> attempt_ends (env k) (disk w) Raised (disk w)) ->
  attempt_ends (env i) (disk w) (Ok tt) X ->
  disk (snd (pipeline_principal env w)) = X /\
  (cuenta is_read (trace (snd (pipeline_principal env w))) =
   cuenta is_read (trace w) + S (List.length pre))%nat.
Proof.
  intros Hseq Hpre Hi. unfold pipeline_principal. rewrite Hseq.
  assert (forall pre' w0,
            (forall k, In k pre' ->
                       attempt_ends (env k) (disk w) Raised (disk w)) ->
            disk w0 = disk w ->
            disk (snd (intentos env (pre' ++ i :: post) w0)) = X /\
            (cuenta is_read (trace (snd (intentos env (pre' ++ i :: post) w0)))
             = cuenta is_read (trace w0) + S (List.length pre'))%nat) as G.
  { induction pre' as [|k pre' IH]; intros w0 Hp Hw0.
    - destruct (Hi (trace w0)) as [Hr Hd]. rewrite <- Hw0, world_eta in Hr, Hd.
      pose proof (intento_pipeline_cuenta is_read eq_refl (fun _ => eq_refl)
                    eq_refl eq_refl (env i) w0) as Hc.
      cbn [app intentos]. unfold try_except.
      destruct (intento_pipeline (env i) w0) as [[[]|] w1];
        cbn [fst snd] in *; [|discriminate].
      split; [exact Hd|]. rewrite Hc. cbn. lia.
    - destruct (Hp k (or_introl eq_refl) (trace w0)) as [Hr Hd].
      rewrite <- Hw0, world_eta in Hr, Hd.
      pose proof (intento_pipeline_cuenta is_read eq_refl (fun _ => eq_refl)
                    eq_refl eq_refl (env k) w0) as Hc.
      cbn [app intentos]. unfold try_except.
      destruct (intento_pipeline (env k) w0) as [[[]|] w1];
        cbn [fst snd] in *; [discriminate|].
      unfold bind, emit. cbn [fst snd disk trace].
      destruct (IH (mkWorld (disk w1) (trace w1 ++ [ev_sleep 60])))
        as [HX Hn].
      + intros j Hj. apply Hp. now right.
      + cbn [disk]. congruence.
      + split; [exact HX|]. rewrite Hn. cbn [trace List.length].
        rewrite cuenta_app, Hc. cbn. lia. }
  now apply G.
Qed.

(** X14. A damaged file is not repaired by the retries.  When the attempts
    before attempt [i] raise and leave the file as it was, and attempt [i]
    raises and leaves a file [X] that cannot be loaded (a write cut short),
    the run ends with the file [X]. *)
Theorem pipeline_principal_damage_stays env w pre i post X :
  seq 1 3 = pre ++ i :: post ->
  (forall k, In k pre -> attempt_ends (env k) (disk w) Raised (disk w)) ->
  attempt_ends (env i) (disk w) Raised X ->
  unreadable X ->
  disk (snd (pipeline_principal env w)) = X.
Proof.
  intros Hseq Hpre Hi HX. unfold pipeline_principal. rewrite Hseq.
  destruct (intentos_skip env pre (i :: post) w Hpre) as (w1 & -> & Hw1).
  destruct (Hi (trace w1)) as [Hr Hd]. rewrite <- Hw1, world_eta in Hr, Hd.
  cbn [intentos]. unfold try_except.
  destruct (intento_pipeline (env i) w1) as [[[]|] w2]; cbn [fst snd] in *;
    [discriminate|].
  unfold bind, emit. cbn [fst snd disk trace].
  rewrite intentos_unreadable; cbn [disk]; now rewrite Hd.
Qed.

End MorePipelineFacts.

(** ** The cleanup of old logs *)

Section StringFacts.

Lemma prefix_split (pre s : string) :
  String.prefix pre s = true -> exists resto, s = (pre ++ resto)%string.
Proof.
  revert s. induction pre as [|c pre IH]; intros s H.
  - now exists s.
  - destruct s as [|c' s]; simpl in H; [discriminate|].
    destruct (ascii_dec c c') as [->|]; [|discriminate].
    destruct (IH s H) as [resto ->]. now exists resto.
Qed.

Lemma prefix_app (pre s : string) : String.prefix pre (pre ++ s) = true.
Proof.
  induction pre as [|c pre IH]; [now destruct s|].
  simpl. destruct (ascii_dec c c); [exact IH|congruence].
Qed.

Lemma string_app_assoc (s1 s2 s3 : string) :
  ((s1 ++ s2) ++ s3 = s1 ++ (s2 ++ s3))%string.
Proof. induction s1 as [|c s1 IH]; [reflexivity|]. simpl. now rewrite IH. Qed.

Lemma endswith_app (suf s : string) : endswith suf (s ++ suf) = true.
Proof.
  induction s as [|c s IH]; simpl.
  - destruct suf; simpl; [reflexivity|].
    now rewrite Ascii.eqb_refl, String.eqb_refl.
  - rewrite IH. apply orb_true_r.
Qed.

Lemma split_nonempty (sep : ascii) (s : string) :
  exists pieza piezas, split sep s = pieza :: piezas.
Proof.
  induction s as [|c s (pieza & piezas & IH)]; simpl; [eauto|].
  destruct (Ascii.eqb c sep); [eauto|]. rewrite IH. eauto.
Qed.

(** A string without the separator is its own single piece. *)
Lemma split_without (sep : ascii) (s : string) :
  has_char sep s = false -> split sep s = [s].
Proof.
  induction s as [|c s IH]; [reflexivity|].
  simpl. intro H. apply orb_false_iff in H as [Hc Hs].
  now rewrite Hc, (IH Hs).
Qed.

Lemma has_char_app (c : ascii) (s1 s2 : string) :
  has_char c (s1 ++ s2) = has_char c s1 || has_char c s2.
Proof.
  induction s1 as [|c' s1 IH]; [reflexivity|].
  simpl. now rewrite IH, orb_assoc.
Qed.

(** The extension is taken off a string that has no dot. *)
Lemma replace_strip (f : string) :
  has_char "." f = false -> replace ".log" "" (f ++ ".log") = f.
Proof.
  unfold replace. induction f as [|c f IH]; [reflexivity|].
  intro H. simpl in H. apply orb_false_iff in H as [Hc Hf].
  change ((String c f ++ ".log")%string) with (String c (f ++ ".log")).
  cbn [replace_from String.prefix].
  destruct (ascii_dec "." c) as [<-|_]; [discriminate|].
  now rewrite (IH Hf).
Qed.
End StringFacts.

Section CleanupFacts.
Variable strptime : string -> option Z.
Variable hoy : Z.
Variable unlink_raises : string -> bool.

(** X15. The part of the name read as a date always exists: for a name
    that starts with [log_actualiza_db_], the fourth piece of the split at
    the underscores is there (the indexing does not raise), and it is what
    follows the prefix up to the next underscore. *)
Theorem split_index_safe (nombre : string) :
  startswith "log_actualiza_db_" nombre = true ->
  exists resto parte piezas,
    nombre = ("log_actualiza_db_" ++ resto)%string /\
    split "_" resto = parte :: piezas /\
    nth_error (split "_" nombre) 3 = Some parte.
Proof.
  intro H. apply prefix_split in H as [resto ->].
  destruct (split_nonempty "_" resto) as (parte & piezas & Hs).
  exists resto, parte, piezas. split; [reflexivity|]. split; [exact Hs|].
  cbn. now rewrite Hs.
Qed.

(** *** The loop is a filter *)

Lemma recorrer_filter (archivos : list archivo) (n : nat) :
  recorrer strptime hoy unlink_raises archivos n =
  (filter (fun a => negb (se_elimina strptime hoy unlink_raises a)) archivos,
   (n + List.length
          (filter (se_elimina strptime hoy unlink_raises) archivos))%nat).
Proof.
  revert n. induction archivos as [|a resto IH]; intro n.
  - cbn. now rewrite Nat.add_0_r.
  - cbn [recorrer filter].
    assert (se_elimina strptime hoy unlink_raises a =
            match procesar strptime hoy unlink_raises a with
            | eliminado => true
            | _ => false
            end) as Hs by reflexivity.
    destruct (procesar strptime hoy unlink_raises a); rewrite Hs, IH;
      cbn [negb List.length]; f_equal; lia.
Qed.

(** X16. The cleanup is a filter.  Each entry of the folder is judged on
    its own: the entries left are, in their order, those that the body of
    the loop does not remove, whatever happened to the others (an
    exception on one entry does not stop the loop), and [eliminados] counts
    the entries removed; removed and left add up to the folder. *)
Theorem limpia_logs_viejos_filter (archivos : list archivo) :
  limpia_logs_viejos strptime hoy unlink_raises (Some archivos) =
    (Some (filter (fun a => negb (se_elimina strptime hoy unlink_raises a))
                  archivos),
     List.length (filter (se_elimina strptime hoy unlink_raises) archivos)) /\
  (List.length (filter (se_elimina strptime hoy unlink_raises) archivos) +
   List.length
     (filter (fun a => negb (se_elimina strptime hoy unlink_raises a))
             archivos) = List.length archivos)%nat.
Proof.
  split.
  - unfold limpia_logs_viejos. now rewrite recorrer_filter.
  - induction archivos as [|a resto IH]; [reflexivity|].
    cbn [filter]. destruct (se_elimina strptime hoy unlink_raises a);
      cbn [negb List.length]; lia.
Qed.

(** X17. Only old logs are removed.  An entry that the cleanup removes is
    a regular file whose name starts with [log_actualiza_db_] and ends
    with [.log], whose fourth piece, with [.log] taken out, is read as a
    date more than fifteen days before today, and whose [unlink] did not
    raise. *)
Theorem limpia_logs_viejos_sound (archivos quedan : list archivo)
    (n : nat) (a : archivo) :
  limpia_logs_viejos strptime hoy unlink_raises (Some archivos) =
    (Some quedan, n) ->
  In a archivos -> ~ In a quedan ->
  is_file a = true /\
  startswith "log_actualiza_db_" (name a) = true /\
  endswith ".log" (name a) = true /\
  exists parte fecha_log,
    nth_error (split "_" (name a)) 3 = Some parte /\
    strptime (replace ".log" "" parte) = Some fecha_log /\
    hoy - fecha_log > dias_limite /\
    unlink_raises (name a) = false.
Proof.
  intros Hl Hin Hout.
  unfold limpia_logs_viejos in Hl. rewrite recorrer_filter in Hl.
  injection Hl as <- _.
  assert (se_elimina strptime hoy unlink_raises a = true) as Hs.
  { destruct (se_elimina strptime hoy unlink_raises a) eqn:E; [reflexivity|].
    exfalso. apply Hout. apply filter_In. split; [exact Hin|].
    now rewrite E. }
  unfold se_elimina, procesar in Hs.
  destruct (is_file a); [|discriminate].
  destruct (startswith "log_actualiza_db_" (name a)); [|discriminate].
  destruct (endswith ".log" (name a)); [|discriminate].
  cbn [andb] in Hs.
  destruct (nth_error (split "_" (name a)) 3) as [parte|]; [|discriminate].
  destruct (strptime (replace ".log" "" parte)) as [fecha_log|] eqn:Ef;
    [|discriminate].
  cbv zeta in Hs.
  destruct (hoy - fecha_log >? dias_limite) eqn:Ed; [|discriminate].
  destruct (unlink_raises (name a)) eqn:Eu; [discriminate|].
  repeat split. exists parte, fecha_log. repeat split; auto.
  apply Z.gtb_lt in Ed. lia.
Qed.

(** X18. A log named by the convention, [log_actualiza_db_<fecha>.log]
    with no underscore and no dot in [<fecha>], is judged by [<fecha>]
    alone: it is removed when the date is more than fifteen days before
    today and [unlink] does not raise, and it is left when the date is
    fifteen days old or less (or in the future). *)
Theorem procesar_canonical (fecha_str : string) (fecha_log : Z) :
  has_char "_" fecha_str = false ->
  has_char "." fecha_str = false ->
  strptime fecha_str = Some fecha_log ->
  procesar strptime hoy unlink_raises
    (mkArchivo ("log_actualiza_db_" ++ fecha_str ++ ".log") true) =
  if hoy - fecha_log >? 15 then
    if unlink_raises ("log_actualiza_db_" ++ fecha_str ++ ".log")
    then error_registrado else eliminado
  else conservado.
Proof.
  intros Hu Hd Hf. unfold procesar. cbn [name is_file andb].
  unfold startswith. rewrite prefix_app.
  assert (endswith ".log" ("log_actualiza_db_" ++ fecha_str ++ ".log") = true)
    as -> by (rewrite <- string_app_assoc; apply endswith_app).
  cbn [andb].
  assert (nth_error
            (split "_" ("log_actualiza_db_" ++ fecha_str ++ ".log")) 3 =
          Some (fecha_str ++ ".log")%string) as ->.
  { cbn. rewrite split_without; [reflexivity|].
    now rewrite has_char_app, Hu. }
  rewrite (replace_strip _ Hd), Hf. reflexivity.
Qed.

(** X19. The cleanup always runs.  [pipeline_principal] never raises, so
    the program goes on to [limpia_logs_viejos] whatever became of the
    update. *)
Theorem main_always_cleans {V : Type} (env : nat -> entorno V) (w : world V)
    (carpeta_logs : option (list archivo)) :
  main strptime hoy unlink_raises env w carpeta_logs =
  (snd (pipeline_principal env w),
   Some (limpia_logs_viejos strptime hoy unlink_raises carpeta_logs)).
Proof.
  unfold main. pose proof (intentos_never_raises env (seq 1 3) w) as H.
  fold (pipeline_principal env) in H.
  destruct (pipeline_principal env w) as [[[]|] w']; [reflexivity|].
  discriminate.
Qed.
End CleanupFacts.

(** ** The further properties on sample inputs *)

(** The sample gold column holds 5 in its first row: its fifth row holds a
    value too. *)
Lemma paso_final_actualizar_no_gap_witness :
  exists v',
    nth_error
      (column c_price_gold
         (paso_final_actualizar
            (gold_table 1 [Some 5; None; None; Some 8; None]))) 4 =
    Some (Some v').
Proof.
  apply (paso_final_actualizar_no_gap
           (gold_table 1 [Some 5; None; None; Some 8; None])
           c_price_gold 0 4 5 eq_refl).
  - lia.
  - simpl. lia.
Defined.

(** The 5 that the Monday row of the reconciled sample table holds comes
    from a row of the input that is not dated later. *)
Lemma paso_final_actualizar_origin_witness :
  In (gold_row 739558 (Some 5)) (paso_final_actualizar (ex_T ++ [ex_new])) /\
  exists r,
    In r (ex_T ++ [ex_new]) /\ cell c_price_gold r = Some 5 /\
    date_le (date r) (Some 739558).
Proof.
  assert (In (gold_row 739558 (Some 5))
             (paso_final_actualizar (ex_T ++ [ex_new]))) as Hin
    by (right; left; reflexivity).
  split; [exact Hin|].
  exact (paso_final_actualizar_origin (ex_T ++ [ex_new]) c_price_gold
           (gold_row 739558 (Some 5)) 5 Hin eq_refl).
Defined.

(** Friday's row is stored; Monday's row, without a gold price, goes below
    it with Friday's price. *)
Lemma reconcile_append_witness :
  reconcile [gold_row 739555 (Some 5)] ex_new =
    paso_final_actualizar [gold_row 739555 (Some 5)] ++
    [fill_row (last (paso_final_actualizar [gold_row 739555 (Some 5)])
                    null_row) ex_new] /\
  (paso_final_actualizar [gold_row 739555 (Some 5)] =
     [gold_row 739555 (Some 5)] ->
   reconcile [gold_row 739555 (Some 5)] ex_new =
     [gold_row 739555 (Some 5)] ++
     [fill_row (last [gold_row 739555 (Some 5)] null_row) ex_new]).
Proof.
  apply (reconcile_append [gold_row 739555 (Some 5)] ex_new).
  repeat constructor.
Defined.

(** Two rows for Monday, one after the other, on the sample table. *)
Lemma reconcile_last_write_wins_witness :
  reconcile (reconcile ex_T (gold_row 739558 (Some 9))) ex_new =
  reconcile ex_T ex_new.
Proof.
  apply (reconcile_last_write_wins ex_T (gold_row 739558 (Some 9)) ex_new).
  - reflexivity.
  - repeat constructor.
Defined.

(** The call for the S&P 500 raises: three downloads, no row. *)
Lemma instrument_exception_aborts_witness :
  (exists w',
     retorna_data_instrumentos ex_yahoo_cae ex_world = (Raised, w') /\
     disk w' = disk ex_world /\
     downloads (trace w') =
       downloads (trace ex_world) ++
       map snd [("price_gold", "GC=F"); ("stock_index_dowjones", "^DJI")]%string
       ++ ["^GSPC"%string]) /\
  fst (obtener_data_hoy ex_yahoo_cae ex_world) = Raised.
Proof.
  apply (instrument_exception_aborts ex_yahoo_cae ex_world
           [("price_gold", "GC=F"); ("stock_index_dowjones", "^DJI")]%string
           "stock_index_sp500" "^GSPC"
           [("rate_US10Y", "^TNX"); ("stock_index_ni225", "^N225")]%string).
  - discriminate.
  - discriminate.
  - reflexivity.
  - intros s Hs. simpl in Hs. destruct Hs as [<-|[<-|[]]]; discriminate.
  - reflexivity.
Defined.

(** The crypto source is down. *)
Lemma crypto_failure_aborts_witness :
  obtener_data_hoy ex_sin_bitcoin ex_world =
    (Raised, mkWorld (disk ex_world) (trace ex_world ++ [ev_get_coingecko])) /\
  downloads (trace (snd (obtener_data_hoy ex_sin_bitcoin ex_world))) =
    downloads (trace ex_world).
Proof. exact (crypto_failure_aborts ex_sin_bitcoin ex_world eq_refl). Defined.

(** Monday 2025-11-03, the Dow Jones frame empty. *)
Lemma obtener_data_hoy_keys_witness :
  map fst
    (dict_union
       [("date"%string, py_date 739558); ("price"%string, py_num 100);
        ("total_volume"%string, py_num 200);
        ("market_cap"%string, py_num 300)]
       [("price_gold"%string, py_num 42);
        ("stock_index_dowjones"%string, py_none);
        ("stock_index_sp500"%string, py_num 42);
        ("rate_US10Y"%string, py_num 42);
        ("stock_index_ni225"%string, py_num 42)]) =
    ["date"; "price"; "total_volume"; "market_cap"; "price_gold";
     "stock_index_dowjones"; "stock_index_sp500"; "rate_US10Y";
     "stock_index_ni225"]%string /\
  dict_get "date"
    (dict_union
       [("date"%string, py_date 739558); ("price"%string, py_num 100);
        ("total_volume"%string, py_num 200);
        ("market_cap"%string, py_num 300)]
       [("price_gold"%string, py_num 42);
        ("stock_index_dowjones"%string, py_none);
        ("stock_index_sp500"%string, py_num 42);
        ("rate_US10Y"%string, py_num 42);
        ("stock_index_ni225"%string, py_num 42)]) =
    Some (py_date (hoy_bitcoin ex_lunes)).
Proof.
  exact (obtener_data_hoy_keys ex_lunes ex_world _
           (snd (obtener_data_hoy ex_lunes ex_world)) eq_refl).
Defined.

(** Monday 2025-11-03: ten events. *)
Lemma business_day_pacing_witness :
  snd (retorna_data_instrumentos ex_lunes ex_world) =
    mkWorld (disk ex_world)
      (trace ex_world ++
       [ev_yf_download "GC=F"; ev_sleep 15;
        ev_yf_download "^DJI"; ev_sleep 15;
        ev_yf_download "^GSPC"; ev_sleep 15;
        ev_yf_download "^TNX"; ev_sleep 15;
        ev_yf_download "^N225"; ev_sleep 15]).
Proof.
  apply (business_day_pacing ex_lunes ex_world).
  - discriminate.
  - discriminate.
  - intros s Hs. simpl in Hs.
    destruct Hs as [<-|[<-|[<-|[<-|[<-|[]]]]]]; discriminate.
Defined.

(** No file: three loads, three pauses, and still no file. *)
Lemma pipeline_principal_unreadable_witness :
  pipeline_principal (fun _ => ex_lunes) ex_sin_archivo =
  (Ok tt,
   mkWorld (disk ex_sin_archivo)
     (trace ex_sin_archivo ++
      [ev_read_parquet; ev_sleep 60; ev_read_parquet; ev_sleep 60;
       ev_read_parquet; ev_sleep 60])).
Proof.
  exact (pipeline_principal_unreadable (fun _ => ex_lunes) ex_sin_archivo I).
Defined.

(** The crypto source is down on the first attempt only: the second
    attempt stores its table, after two loads. *)
Lemma pipeline_principal_first_success_witness :
  disk (snd (pipeline_principal ex_reintento ex_world)) =
    disk (snd (intento_pipeline ex_lunes ex_world)) /\
  (cuenta is_read (trace (snd (pipeline_principal ex_reintento ex_world))) =
   cuenta is_read (trace ex_world) + 2)%nat.
Proof.
  apply (pipeline_principal_first_success ex_reintento ex_world
           [1%nat] 2%nat [3%nat]).
  - reflexivity.
  - intros k Hk. simpl in Hk. destruct Hk as [<-|[]].
    intro tr. split; reflexivity.
  - intro tr. split; reflexivity.
Defined.

(** The first write is cut short: the partial file is what the run
    leaves. *)
Lemma pipeline_principal_damage_stays_witness :
  disk (snd (pipeline_principal (fun _ => ex_corte) ex_world)) =
  Partial (reconcile ex_T
             (mkRow (Some 739558) (Some 100) (Some 200) (Some 300)
                    (Some 42) (Some 42) (Some 42) (Some 42) (Some 42))).
Proof.
  apply (pipeline_principal_damage_stays (fun _ => ex_corte) ex_world
           [] 1%nat [2%nat; 3%nat]).
  - reflexivity.
  - intros k [].
  - intro tr. split; reflexivity.
  - exact I.
Defined.

(** The name of a log that holds no date: the indexing still succeeds. *)
Lemma split_index_safe_witness :
  exists resto parte piezas,
    "log_actualiza_db_hoy.log"%string =
      ("log_actualiza_db_" ++ resto)%string /\
    split "_" resto = parte :: piezas /\
    nth_error (split "_" "log_actualiza_db_hoy.log") 3 = Some parte.
Proof. exact (split_index_safe "log_actualiza_db_hoy.log" eq_refl). Defined.

(** In the sample folder the log of 33 days is the one entry removed. *)
Lemma limpia_logs_viejos_sound_witness :
  limpia_logs_viejos ex_strptime 739558 (fun _ => false) (Some ex_carpeta) =
    (Some [mkArchivo "log_actualiza_db_2025-10-19.log" true;
           mkArchivo "log_actualiza_db_hoy.log" true;
           mkArchivo "notas.txt" true;
           mkArchivo "log_actualiza_db_2025-10-01.log" false], 1%nat) /\
  (is_file (mkArchivo "log_actualiza_db_2025-10-01.log" true) = true /\
   startswith "log_actualiza_db_" "log_actualiza_db_2025-10-01.log" = true /\
   endswith ".log" "log_actualiza_db_2025-10-01.log" = true /\
   exists parte fecha_log,
     nth_error (split "_" "log_actualiza_db_2025-10-01.log") 3 = Some parte /\
     ex_strptime (replace ".log" "" parte) = Some fecha_log /\
     739558 - fecha_log > dias_limite /\
     (fun _ : string => false) "log_actualiza_db_2025-10-01.log"%string =
       false).
Proof.
  split; [reflexivity|].
  apply (limpia_logs_viejos_sound ex_strptime 739558 (fun _ => false)
           ex_carpeta _ 1%nat
           (mkArchivo "log_actualiza_db_2025-10-01.log" true) eq_refl).
  - left. reflexivity.
  - intros [H|[H|[H|[H|[]]]]]; discriminate H.
Defined.

(** The log of 15 days is left on 2025-11-03. *)
Lemma procesar_canonical_witness :
  procesar ex_strptime 739558 (fun _ => false)
    (mkArchivo ("log_actualiza_db_" ++ "2025-10-19" ++ ".log") true) =
  conservado.
Proof.
  exact (procesar_canonical ex_strptime 739558 (fun _ => false)
           "2025-10-19" 739543 eq_refl eq_refl eq_refl).
Defined.
